(** * asynkets: latch, broadcast pulse, periodic ticker and bounded counter

    A shallow embedding of the four primitives of the [asynkets] package
    ([switch.py], [pulse.py], [constant_timer.py], [eventful_counter.py])
    and the properties their specification states about them.

    Numbers.  The counter's value and bounds, and the loop's clock readings
    and periods, are Python numbers on which the code only uses [+], [-],
    [*] and the order comparisons.  They are modelled as [Z], on which this
    arithmetic is exact, as it is on the Python [int]s the test-suite feeds
    the classes.

    Exceptions.  A Python method that raises leaves the object as it stood
    at the [raise]; methods are therefore functions from a state to an
    outcome together with the state reached. *)

From Stdlib Require Import ZArith Lia Bool List.
From stdpp Require Import base list.
Import ListNotations.
Local Open Scope Z_scope.

(** ** Outcomes and the state-and-exception monad *)

Inductive exn : Type :=
  | ValueError
  | TypeError
  | RuntimeError
  | InvalidStateError.

Inductive outcome (A : Type) : Type :=
  | Ret (a : A)
  | Raise (e : exn).
Arguments Ret {A} a.
Arguments Raise {A} e.

Definition M (S A : Type) : Type := S -> outcome A * S.

Definition ret {S A : Type} (a : A) : M S A := fun s => (Ret a, s).

Definition raise {S A : Type} (e : exn) : M S A := fun s => (Raise e, s).

Definition bind {S A B : Type} (c : M S A) (k : A -> M S B) : M S B :=
  fun s =>
    match c s with
    | (Ret a, s') => k a s'
    | (Raise e, s') => (Raise e, s')
    end.

Definition get {S : Type} : M S S := fun s => (Ret s, s).

Definition modify {S : Type} (f : S -> S) : M S unit := fun s => (Ret tt, f s).

Declare Scope py_scope.
Delimit Scope py_scope with py.
Notation "x <- c ;; k" := (bind c (fun x => k))
  (at level 100, c at next level, right associativity) : py_scope.
Notation "c ;; k" := (bind c (fun _ => k))
  (at level 100, right associativity) : py_scope.

(** [if b: c] with no [else]. *)
Definition when {S : Type} (b : bool) (c : M S unit) : M S unit :=
  if b then c else ret tt.

(** ** asyncio.Event

    The part of [asyncio.Event] that [Switch] relies on.  An event holds a
    flag and the futures of the coroutines suspended in [Event.wait].  Such
    a future is created inside [Event.wait] and is known to the event and
    to the one task awaiting it only; it is kept in place in the waiter
    list, as the task's identifier paired with whether the future is
    done. *)

Module Event.

Record t : Type := mk { _value : bool; _waiters : list (nat * bool) }.

(** [Event()] *)
Definition new : t := {| _value := false; _waiters := [] |}.

Definition is_set (e : t) : bool := _value e.

(** [set]: when the flag is down, raise it and resolve every waiter that
    is not done yet. *)
Definition set (e : t) : t :=
  if _value e then e
  else {| _value := true;
          _waiters := map (fun w => (fst w, true)) (_waiters e) |}.

Definition clear (e : t) : t :=
  {| _value := false; _waiters := _waiters e |}.

(** [wait], up to its suspension point: [inl] when the flag is up and the
    call returns at once, [inr] when a future for task [tid] has been
    appended and the task suspends on it. *)
Definition wait_begin (tid : nat) (e : t) : t + t :=
  if _value e then inl e
  else inr {| _value := _value e; _waiters := _waiters e ++ [(tid, false)] |}.

Definition fut_done (tid : nat) (e : t) : bool :=
  existsb (fun w => Nat.eqb (fst w) tid && snd w) (_waiters e).

(** [wait], from its suspension point: possible once the future is done;
    the [finally] clause removes the future from the waiters. *)
Definition wait_resume (tid : nat) (e : t) : option t :=
  if fut_done tid e
  then Some {| _value := _value e;
               _waiters := filter (fun w => negb (Nat.eqb (fst w) tid)) (_waiters e) |}
  else None.

End Event.

(** ** switch.py *)

Module Switch.

Record t : Type := mk {
  _ev_on : Event.t;
  _ev_off : Event.t;
  _state : bool
}.

Definition set (s : t) : t :=
  if negb (_state s)
  then {| _ev_on := Event.set (_ev_on s);
          _ev_off := Event.clear (_ev_off s);
          _state := true |}
  else s.

Definition clear (s : t) : t :=
  if _state s
  then {| _ev_on := Event.clear (_ev_on s);
          _ev_off := Event.set (_ev_off s);
          _state := false |}
  else s.

Definition set_state (state : bool) (s : t) : t :=
  if state then set s else clear s.

(** [__init__]: both events are fresh, [_state] is assigned, and
    [set_state(initial_state)] then finds nothing to change. *)
Definition __init__ (initial_state : bool) : t :=
  set_state initial_state
    {| _ev_on := Event.new; _ev_off := Event.new; _state := initial_state |}.

Definition is_set (s : t) : bool := _state s.

Definition is_clear (s : t) : bool := negb (_state s).

(** *** The waiting coroutines

    [wait] and [wait_clear] are [wait_for True] and [wait_for False]; each
    returns at once when the switch is in the state asked for and
    otherwise awaits the corresponding event.  The other waiting
    coroutines are sequences of such calls, so a coroutine is given by the
    states it has still to wait for, in order. *)

Definition event_for (b : bool) (s : t) : Event.t :=
  if b then _ev_on s else _ev_off s.

Definition with_event (b : bool) (e : Event.t) (s : t) : t :=
  if b then mk e (_ev_off s) (_state s) else mk (_ev_on s) e (_state s).

Definition wait : list bool := [true].

Definition wait_clear : list bool := [false].

Definition wait_for (state : bool) : list bool :=
  if state then wait else wait_clear.

Definition wait_toggle (s : t) : list bool :=
  if _state s then wait_clear else wait.

Definition wait_toggle_to (state : bool) : list bool :=
  if state then wait_clear ++ wait else wait ++ wait_clear.

(** A task running such a coroutine is suspended inside [Event.wait] of
    one of the two events, with calls left to make, or has returned. *)
Inductive task : Type :=
  | Suspended (on : bool) (rest : list bool)
  | Returned.

(** Run the calls of [todo] for task [tid] up to the first suspension. *)
Fixpoint run_waits (tid : nat) (todo : list bool) (s : t) : task * t :=
  match todo with
  | [] => (Returned, s)
  | b :: rest =>
      if Bool.eqb (_state s) b then run_waits tid rest s
      else match Event.wait_begin tid (event_for b s) with
           | inl _ => run_waits tid rest s
           | inr e => (Suspended b rest, with_event b e s)
           end
  end.

(** The loop resumes a suspended task once the future it awaits is done. *)
Definition resume (tid : nat) (k : task) (s : t) : task * t :=
  match k with
  | Suspended b rest =>
      match Event.wait_resume tid (event_for b s) with
      | Some e => run_waits tid rest (with_event b e s)
      | None => (k, s)
      end
  | Returned => (k, s)
  end.

(** A switch together with the tasks waiting on it; a task's identifier
    is its position in the list. *)
Record world : Type := mkWorld { switch : t; tasks : list task }.

Inductive action : Type :=
  | DoSet
  | DoClear
  | DoSetState (state : bool)
  | Call (coroutine : list bool)
  | Resume (tid : nat).

Definition act (a : action) (w : world) : world :=
  match a with
  | DoSet => mkWorld (set (switch w)) (tasks w)
  | DoClear => mkWorld (clear (switch w)) (tasks w)
  | DoSetState b => mkWorld (set_state b (switch w)) (tasks w)
  | Call co =>
      let r := run_waits (length (tasks w)) co (switch w) in
      mkWorld (snd r) (tasks w ++ [fst r])
  | Resume tid =>
      match tasks w !! tid with
      | Some k =>
          let r := resume tid k (switch w) in
          mkWorld (snd r) (<[tid := fst r]> (tasks w))
      | None => w
      end
  end.

Definition acts (l : list action) (w : world) : world :=
  fold_left (fun w a => act a w) l w.

Definition has_returned (tid : nat) (w : world) : bool :=
  match tasks w !! tid with
  | Some Returned => true
  | _ => false
  end.

(** Whether, in the course of the actions [l], the switch went from the
    state opposite to [b] into the state [b]. *)
Fixpoint toggles_to (b : bool) (l : list action) (w : world) : bool :=
  match l with
  | [] => false
  | a :: rest =>
      (negb (Bool.eqb (is_set (switch w)) b)
       && Bool.eqb (is_set (switch (act a w))) b)
      || toggles_to b rest (act a w)
  end.

(** An event's flag is only up while the switch is in that event's
    state. *)
Definition flags_sound (s : t) : Prop :=
  forall b, Event._value (event_for b s) = true -> _state s = b.

(** Only existing tasks have futures among the waiters. *)
Definition waiters_known (w : world) : Prop :=
  forall b tid d,
    (tid, d) ∈ Event._waiters (event_for b (switch w)) -> (tid < length (tasks w))%nat.

Definition sound (w : world) : Prop :=
  flags_sound (switch w) /\ waiters_known w.

(** Every future of task [tid] among the waiters of [e] is pending. *)
Definition pending_in (tid : nat) (e : Event.t) : Prop :=
  forall d, (tid, d) ∈ Event._waiters e -> d = false.

(** Task [tid] runs [wait_toggle_to b] and the switch has not gone from
    the opposite state into [b] since the call: the task is suspended in
    its first wait, which can be over only if the switch is in the
    opposite state, or in its second wait with the switch in the
    opposite state. *)
Definition awaiting_toggle (b : bool) (tid : nat) (w : world) : Prop :=
  flags_sound (switch w) /\
  pending_in tid (event_for b (switch w)) /\
  ((tasks w !! tid = Some (Suspended (negb b) [b]) /\
    (_state (switch w) = b -> pending_in tid (event_for (negb b) (switch w))))
   \/
   (tasks w !! tid = Some (Suspended b []) /\ _state (switch w) = negb b)).

(** What running a task other than the one watched does to the switch:
    the state and the flags stay, and pending futures stay pending. *)
Definition undisturbed (tid : nat) (s s' : t) : Prop :=
  _state s' = _state s /\
  (forall b, Event._value (event_for b s') = Event._value (event_for b s)) /\
  (forall b, pending_in tid (event_for b s) -> pending_in tid (event_for b s')).

(** *** Further notions *)

(** A sequence of [set_state] calls. *)
Definition set_states (states : list bool) (s : t) : t :=
  fold_left (fun s b => set_state b s) states s.

(** Task [tid] has returned, or is suspended in its last wait, for state
    [b], with a future among the waiters of that state's event. *)
Definition registered (b : bool) (tid : nat) (w : world) : Prop :=
  has_returned tid w = true \/
  (tasks w !! tid = Some (Suspended b []) /\
   exists d, (tid, d) ∈ Event._waiters (event_for b (switch w))).

(** The same, the future being done. *)
Definition woken (b : bool) (tid : nat) (w : world) : Prop :=
  has_returned tid w = true \/
  (tasks w !! tid = Some (Suspended b []) /\
   (tid, true) ∈ Event._waiters (event_for b (switch w))).

(** The state an action sets the switch to, if it is one of [set],
    [clear] and [set_state]. *)
Definition state_set_by (a : action) : option bool :=
  match a with
  | DoSet => Some true
  | DoClear => Some false
  | DoSetState x => Some x
  | _ => None
  end.

End Switch.

(** ** eventful_counter.py *)

Module EventfulCounter.

Record t : Type := mk {
  _counter : Z;
  _max_value : option Z;
  _min_value : option Z;
  _clamp_to_bounds : bool;
  _min_ev : Switch.t;
  _max_ev : Switch.t
}.

Definition with_counter (v : Z) (c : t) : t :=
  mk v (_max_value c) (_min_value c) (_clamp_to_bounds c) (_min_ev c) (_max_ev c).

Definition with_max_value (b : option Z) (c : t) : t :=
  mk (_counter c) b (_min_value c) (_clamp_to_bounds c) (_min_ev c) (_max_ev c).

Definition with_min_value (b : option Z) (c : t) : t :=
  mk (_counter c) (_max_value c) b (_clamp_to_bounds c) (_min_ev c) (_max_ev c).

Definition on_min_ev (f : Switch.t -> Switch.t) (c : t) : t :=
  mk (_counter c) (_max_value c) (_min_value c) (_clamp_to_bounds c)
     (f (_min_ev c)) (_max_ev c).

Definition on_max_ev (f : Switch.t -> Switch.t) (c : t) : t :=
  mk (_counter c) (_max_value c) (_min_value c) (_clamp_to_bounds c)
     (_min_ev c) (f (_max_ev c)).

Definition min_is_set (c : t) : bool := Switch.is_set (_min_ev c).

Definition max_is_set (c : t) : bool := Switch.is_set (_max_ev c).

(** [x > cast(float, bound)] and [x < cast(float, bound)]: the cast is a
    no-op at run time, and ordering a number against [None] raises
    [TypeError]. *)
Definition gt_bound (x : Z) (bound : option Z) : M t bool :=
  match bound with
  | Some b => ret (x >? b)
  | None => raise TypeError
  end.

Definition lt_bound (x : Z) (bound : option Z) : M t bool :=
  match bound with
  | Some b => ret (x <? b)
  | None => raise TypeError
  end.

Local Open Scope py_scope.

(** The four conditional blocks of [set], in the order of the source.
    Every comparison reads [self._counter] as it stands when the block
    is reached. *)

(** [if self._max_value is not None and self._counter >= self._max_value] *)
Definition enter_max : M t unit :=
  c <- get ;;
  match _max_value c with
  | Some mx =>
      when (_counter c >=? mx)
        (modify (on_max_ev Switch.set) ;;
         when (_clamp_to_bounds c) (modify (with_counter mx)))
  | None => ret tt
  end.

(** [if self._min_ev.is_set() and self._counter > cast(float, self._min_value)] *)
Definition leave_min : M t unit :=
  c <- get ;;
  if Switch.is_set (_min_ev c)
  then b <- gt_bound (_counter c) (_min_value c) ;;
       when b (modify (on_min_ev Switch.clear))
  else ret tt.

(** [if self._min_value is not None and self._counter <= self._min_value] *)
Definition enter_min : M t unit :=
  c <- get ;;
  match _min_value c with
  | Some mn =>
      when (_counter c <=? mn)
        (modify (on_min_ev Switch.set) ;;
         when (_clamp_to_bounds c) (modify (with_counter mn)))
  | None => ret tt
  end.

(** [if self._max_ev.is_set() and self._counter < cast(float, self._max_value)] *)
Definition leave_max : M t unit :=
  c <- get ;;
  if Switch.is_set (_max_ev c)
  then b <- lt_bound (_counter c) (_max_value c) ;;
       when b (modify (on_max_ev Switch.clear))
  else ret tt.

Definition set (value : Z) : M t unit :=
  modify (with_counter value) ;;
  enter_max ;;
  leave_min ;;
  enter_min ;;
  leave_max.

Definition inc (by_ : Z) : M t unit :=
  c <- get ;; set (_counter c + by_).

Definition dec (by_ : Z) : M t unit :=
  c <- get ;; set (_counter c - by_).

(** The [min_value] property setter. *)
Definition set_min_value (value : option Z) : M t unit :=
  match value with
  | None =>
      modify (with_min_value None) ;;
      modify (on_min_ev (Switch.set_state false))
  | Some v =>
      c <- get ;;
      if match _max_value c with Some mx => v >? mx | None => false end
      then raise ValueError
      else modify (with_min_value (Some v)) ;;
           c' <- get ;; set (_counter c')
  end.

(** The [max_value] property setter. *)
Definition set_max_value (value : option Z) : M t unit :=
  match value with
  | None =>
      modify (with_max_value None) ;;
      modify (on_max_ev (Switch.set_state false))
  | Some v =>
      c <- get ;;
      if match _min_value c with Some mn => v <? mn | None => false end
      then raise ValueError
      else modify (with_max_value (Some v)) ;;
           c' <- get ;; set (_counter c')
  end.

(** [__init__]: the fields are assigned, two fresh switches are made,
    and [self.set(initial_value)] runs. *)
Definition __init__ (initial_value : Z) (max_value min_value : option Z)
    (clamp_to_bounds : bool) : outcome unit * t :=
  set initial_value
    {| _counter := initial_value;
       _max_value := max_value;
       _min_value := min_value;
       _clamp_to_bounds := clamp_to_bounds;
       _min_ev := Switch.__init__ false;
       _max_ev := Switch.__init__ false |}.

(** The mutations of a counter. *)
Inductive mutation : Type :=
  | MSet (v : Z)
  | MInc (by_ : Z)
  | MDec (by_ : Z)
  | MSetMin (b : option Z)
  | MSetMax (b : option Z).

Definition apply (m : mutation) : M t unit :=
  match m with
  | MSet v => set v
  | MInc d => inc d
  | MDec d => dec d
  | MSetMin b => set_min_value b
  | MSetMax b => set_max_value b
  end.

(** What the latches are documented to say ([min_is_set]: "True if the
    counter is at or below the minimum value"; [max_is_set] likewise),
    as boolean tests on a state. *)
Definition at_min (c : t) : bool :=
  match _min_value c with Some mn => _counter c <=? mn | None => false end.

Definition at_max (c : t) : bool :=
  match _max_value c with Some mx => _counter c >=? mx | None => false end.

Definition latches_agree (c : t) : bool :=
  Bool.eqb (min_is_set c) (at_min c) && Bool.eqb (max_is_set c) (at_max c).

(** [min <= max] when both bounds are present. *)
Definition bounds_ordered (c : t) : bool :=
  match _min_value c, _max_value c with
  | Some mn, Some mx => mn <=? mx
  | _, _ => true
  end.

(** [min < max] when both bounds are present. *)
Definition bounds_apart (c : t) : bool :=
  match _min_value c, _max_value c with
  | Some mn, Some mx => mn <? mx
  | _, _ => true
  end.

(** *** The "net effect" sentence of the specification, read literally

    The same five steps with every comparison made on the assigned,
    un-clamped [value] instead of on [self._counter]: inclusive to enter a
    bound, strict to leave it. *)

Definition assigned_enter_max (value : Z) : M t unit :=
  c <- get ;;
  match _max_value c with
  | Some mx =>
      when (value >=? mx)
        (modify (on_max_ev Switch.set) ;;
         when (_clamp_to_bounds c) (modify (with_counter mx)))
  | None => ret tt
  end.

Definition assigned_leave_min (value : Z) : M t unit :=
  c <- get ;;
  if Switch.is_set (_min_ev c)
  then b <- gt_bound value (_min_value c) ;;
       when b (modify (on_min_ev Switch.clear))
  else ret tt.

Definition assigned_enter_min (value : Z) : M t unit :=
  c <- get ;;
  match _min_value c with
  | Some mn =>
      when (value <=? mn)
        (modify (on_min_ev Switch.set) ;;
         when (_clamp_to_bounds c) (modify (with_counter mn)))
  | None => ret tt
  end.

Definition assigned_leave_max (value : Z) : M t unit :=
  c <- get ;;
  if Switch.is_set (_max_ev c)
  then b <- lt_bound value (_max_value c) ;;
       when b (modify (on_max_ev Switch.clear))
  else ret tt.

Definition set_comparing_assigned (value : Z) : M t unit :=
  modify (with_counter value) ;;
  assigned_enter_max value ;;
  assigned_leave_min value ;;
  assigned_enter_min value ;;
  assigned_leave_max value.

(** No latch is up without its bound: the states in which [set] cannot
    meet [None] in a comparison. *)
Definition latches_have_bounds (c : t) : bool :=
  implb (min_is_set c) (match _min_value c with Some _ => true | None => false end)
  && implb (max_is_set c) (match _max_value c with Some _ => true | None => false end).

(** With clamping on, the stored value lies within the bounds present. *)
Definition within_bounds (c : t) : bool :=
  match _min_value c with Some mn => mn <=? _counter c | None => true end
  && match _max_value c with Some mx => _counter c <=? mx | None => true end.

(** The counter [EventfulCounter(0, max_value=0, min_value=0,
    clamp_to_bounds=True)]: both latches are up. *)
Definition pinned : t := snd (__init__ 0 (Some 0) (Some 0) true).

(** *** Runs of mutations *)

(** A run of mutations, the outcome of each recorded; a mutation that
    raises leaves the counter as it stood at the [raise], and the caller
    goes on. *)
Fixpoint mutate (ms : list mutation) (c : t) : list (outcome unit) * t :=
  match ms with
  | [] => ([], c)
  | m :: rest =>
      let r := apply m c in
      let rs := mutate rest (snd r) in
      (fst r :: fst rs, snd rs)
  end.

Definition is_bound_assignment (m : mutation) : bool :=
  match m with
  | MSetMin _ | MSetMax _ => true
  | _ => false
  end.


End EventfulCounter.


(** ** The asyncio event loop

    What [pulse.py] and [constant_timer.py] use of the loop: its monotonic
    clock, the futures it creates, the timers set with [call_at].  A future
    is an object shared by whoever holds a reference to it; the loop's
    store keeps the state of each, and a reference is an index into it. *)

Module Loop.

Inductive fstate : Type :=
  | Pending
  | Finished (result : Z)
  | Cancelled.

(** A [TimerHandle]: its deadline, whether it was cancelled, and whether
    the loop has already called it. *)
Record TimerHandle : Type := mkHandle {
  _when : Z;
  _cancelled : bool;
  _called : bool
}.

Record t : Type := mk {
  clock : Z;
  futures : list fstate;
  (** futures in the order they were completed, which is the order in
      which their callbacks were handed to [call_soon] *)
  _ready : list nat;
  (** every handle [call_at] has returned, by index *)
  timers : list TimerHandle;
  (** the handle whose callback the loop is running, if any *)
  _current_handle : option nat;
  (** instrumentation: for every call of [_BasePulse._fire], the clock it
      read and the timer callback it ran in *)
  fire_log : list (Z * option nat)
}.

Definition new (now : Z) : t :=
  {| clock := now; futures := []; _ready := []; timers := [];
     _current_handle := None; fire_log := [] |}.

Definition with_clock (c : Z) (l : t) : t :=
  mk c (futures l) (_ready l) (timers l) (_current_handle l) (fire_log l).

Definition with_futures (fs : list fstate) (rd : list nat) (l : t) : t :=
  mk (clock l) fs rd (timers l) (_current_handle l) (fire_log l).

Definition with_timers (ts : list TimerHandle) (l : t) : t :=
  mk (clock l) (futures l) (_ready l) ts (_current_handle l) (fire_log l).

Definition with_current (h : option nat) (l : t) : t :=
  mk (clock l) (futures l) (_ready l) (timers l) h (fire_log l).

Definition logged (l : t) : t :=
  mk (clock l) (futures l) (_ready l) (timers l) (_current_handle l)
     (fire_log l ++ [(clock l, _current_handle l)]).

Local Open Scope py_scope.

(** [loop.time()] *)
Definition time : M t Z := l <- get ;; ret (clock l).

(** [loop.create_future()] *)
Definition create_future : M t nat :=
  l <- get ;;
  modify (with_futures (futures l ++ [Pending]) (_ready l)) ;;
  ret (length (futures l)).

(** [fut.set_result(v)]: only a pending future takes a result. *)
Definition set_result (fut : nat) (v : Z) : M t unit :=
  l <- get ;;
  match futures l !! fut with
  | Some Pending =>
      modify (with_futures (<[fut := Finished v]> (futures l)) (_ready l ++ [fut]))
  | _ => raise InvalidStateError
  end.

(** [fut.cancel()]: what cancelling the task that awaits [fut] does to
    it.  A future that is done is left alone. *)
Definition cancel (fut : nat) : M t bool :=
  l <- get ;;
  match futures l !! fut with
  | Some Pending =>
      modify (with_futures (<[fut := Cancelled]> (futures l)) (_ready l ++ [fut])) ;;
      ret true
  | _ => ret false
  end.

(** [loop.call_at(when, callback)] *)
Definition call_at (when_ : Z) : M t nat :=
  l <- get ;;
  modify (with_timers (timers l ++ [mkHandle when_ false false])) ;;
  ret (length (timers l)).

(** [handle.cancel()] *)
Definition cancel_handle (h : nat) : M t unit :=
  l <- get ;;
  match timers l !! h with
  | Some hd =>
      modify (with_timers (<[h := mkHandle (_when hd) true (_called hd)]> (timers l)))
  | None => ret tt
  end.

Definition is_due (hd : TimerHandle) : bool :=
  negb (_cancelled hd) && negb (_called hd).

(** The timer the loop calls next: among those neither cancelled nor
    called, the one with the earliest deadline, the earliest set first. *)
Fixpoint earliest (i : nat) (ts : list TimerHandle) (best : option (nat * Z))
    : option (nat * Z) :=
  match ts with
  | [] => best
  | hd :: ts' =>
      let best' :=
        if is_due hd
        then match best with
             | Some (j, w) => if _when hd <? w then Some (i, _when hd) else best
             | None => Some (i, _when hd)
             end
        else best in
      earliest (S i) ts' best'
  end.

Definition next_timer (l : t) : option (nat * Z) := earliest 0 (timers l) None.

(** The loop takes up timer [h], [delay] clock units after the moment it
    became due: the clock never runs backwards and a timer is never
    called before its deadline. *)
Definition take_up (h : nat) (when_ : Z) (delay : nat) (l : t) : t :=
  with_current (Some h)
    (with_clock (Z.max (clock l) when_ + Z.of_nat delay)
       (with_timers
          (match timers l !! h with
           | Some hd => <[h := mkHandle (_when hd) (_cancelled hd) true]> (timers l)
           | None => timers l
           end) l)).

Section Objects.

(** The object whose bound method the timers call. *)
Context {X : Type}.

Definition lift {A : Type} (c : M t A) : M (X * t) A :=
  fun s =>
    match c (snd s) with
    | (o, l') => (o, (fst s, l'))
    end.

Definition on_object (f : X -> X) : M (X * t) unit :=
  modify (fun s => (f (fst s), snd s)).

Definition object : M (X * t) X := s <- get ;; ret (fst s).

(** One turn of the loop: call the next timer's [callback], if a timer is
    due.  An exception leaving a callback is handed to the loop's
    exception handler and the loop goes on. *)
Definition run_once (callback : M (X * t) unit) (delay : nat) (s : X * t) : X * t :=
  match next_timer (snd s) with
  | None => s
  | Some (h, w) =>
      let s' := snd (callback (fst s, take_up h w delay (snd s))) in
      (fst s', with_current None (snd s'))
  end.

(** As many turns as there are delays, the [i]th timer call being late by
    the [i]th delay. *)
Definition run (callback : M (X * t) unit) (delays : list nat) (s : X * t) : X * t :=
  fold_left (fun s d => run_once callback d s) delays s.

End Objects.

(** The deadline of the timer in whose callback the [n]th firing
    ([n >= 1]) took place; [None] when there has been no such firing or
    when it was not made from a timer callback. *)
Definition firing_deadline (n : nat) (l : t) : option Z :=
  match fire_log l !! pred n with
  | Some (_, Some h) => _when <$> timers l !! h
  | _ => None
  end.

(** The clock at the [n]th firing. *)
Definition firing_time (n : nat) (l : t) : option Z :=
  fst <$> fire_log l !! pred n.

(** What happens to an object that sets timers, as far as its waiters
    and the loop are concerned: the loop makes a turn, the next timer call
    being late by [delay], or a task starts waiting on the object. *)
Inductive use : Type :=
  | Turn (delay : nat)
  | Await.

Definition turns (us : list use) : nat :=
  length (List.filter (fun u => match u with Turn _ => true | Await => false end) us).

End Loop.

(** ** pulse.py *)

Module Pulse.

Record t : Type := mk {
  _waiters : list nat;
  _value : option Z
}.

Local Open Scope py_scope.

Definition __init__ : t := {| _waiters := []; _value := None |}.

(** [wait]: a new future is appended to the waiters and returned. *)
Definition wait : M (t * Loop.t) nat :=
  fut <- Loop.lift Loop.create_future ;;
  Loop.on_object (fun p => mk (_waiters p ++ [fut]) (_value p)) ;;
  ret fut.

(** [for fut in self._waiters: fut.set_result(self._value)] *)
Fixpoint set_results (futs : list nat) (v : Z) : M Loop.t unit :=
  match futs with
  | [] => ret tt
  | fut :: rest => Loop.set_result fut v ;; set_results rest v
  end.

(** [_fire], which [Pulse] exposes as [fire]. *)
Definition _fire : M (t * Loop.t) unit :=
  now <- Loop.lift Loop.time ;;
  Loop.lift (modify Loop.logged) ;;
  Loop.on_object (fun p => mk (_waiters p) (Some now)) ;;
  p <- Loop.object ;;
  Loop.lift (set_results (_waiters p) now) ;;
  Loop.on_object (fun p => mk [] (_value p)).

Definition fire : M (t * Loop.t) unit := _fire.

(** What the users of a pulse do to it and to the futures it gave them,
    and the passing of time. *)
Inductive op : Type :=
  | Wait
  | Fire
  | Abandon (fut : nat)
  | Sleep (d : nat).

Definition step (o : op) (s : t * Loop.t) : outcome (option nat) * (t * Loop.t) :=
  match o with
  | Wait => (fut <- wait ;; ret (Some fut)) s
  | Fire => (fire ;; ret None) s
  | Abandon fut => (Loop.lift (Loop.cancel fut) ;; ret None) s
  | Sleep d =>
      (Ret None, (fst s, Loop.with_clock (Loop.clock (snd s) + Z.of_nat d) (snd s)))
  end.

(** A sequence of operations, each outcome recorded; an exception ends
    the operation that raised it, not the sequence. *)
Fixpoint steps (os : list op) (s : t * Loop.t)
    : list (outcome (option nat)) * (t * Loop.t) :=
  match os with
  | [] => ([], s)
  | o :: rest =>
      let r := step o s in
      let rs := steps rest (snd r) in
      (fst r :: fst rs, snd rs)
  end.

(** The futures a run of operations handed out, in order. *)
Fixpoint returned (rs : list (outcome (option nat))) : list nat :=
  match rs with
  | [] => []
  | Ret (Some fut) :: rest => fut :: returned rest
  | _ :: rest => returned rest
  end.

(** Every registered waiter is a pending future, registered once. *)
Definition waiters_pending (s : t * Loop.t) : Prop :=
  NoDup (_waiters (fst s)) /\
  forall fut, fut ∈ _waiters (fst s) -> Loop.futures (snd s) !! fut = Some Loop.Pending.

Definition not_abandon (o : op) : bool :=
  match o with
  | Wait | Fire | Sleep _ => true
  | Abandon _ => false
  end.

(** What a user of the pulse can see of a state: the futures and the
    order they completed in, the clock, and the futures still waiting. *)
Definition visible (s : t * Loop.t) : list nat * list Loop.fstate * list nat * Z :=
  (_waiters (fst s), Loop.futures (snd s), Loop._ready (snd s), Loop.clock (snd s)).

End Pulse.

Module TimePulse.

Record t : Type := mk {
  base : Pulse.t;
  _period : Z;
  _start_time : Z;
  _ticks : Z
}.

Local Open Scope py_scope.

(** The inherited [_fire] works on the [_BasePulse] fields. *)
Definition _fire : M (t * Loop.t) unit :=
  fun s =>
    match Pulse._fire (base (fst s), snd s) with
    | (o, (p, l)) =>
        (o, (mk p (_period (fst s)) (_start_time (fst s)) (_ticks (fst s)), l))
    end.

Definition __init__ (period : Z) (l : Loop.t) : t * Loop.t :=
  let start := Loop.clock l in
  ({| base := Pulse.__init__; _period := period; _start_time := start; _ticks := 0 |},
   snd (Loop.call_at (start + period) l)).

Definition _tick : M (t * Loop.t) unit :=
  _fire ;;
  Loop.on_object (fun p => mk (base p) (_period p) (_start_time p) (_ticks p + 1)) ;;
  p <- Loop.object ;;
  _ <- Loop.lift (Loop.call_at (_start_time p + _period p * _ticks p)) ;;
  ret tt.

(** The state after [n] timer calls of a pulse made at time [T] with
    period [P] on a loop of its own: the [n] timers called so far and the
    one pending, each with its deadline, and the [n] firings, each made
    from its timer's callback. *)
Definition deadline (T P : Z) (i : nat) : Z := T + P * Z.max 1 (Z.of_nat i).

Definition ticking (T P : Z) (n : nat) (s : t * Loop.t) : Prop :=
  _start_time (fst s) = T /\ _period (fst s) = P /\ _ticks (fst s) = Z.of_nat n /\
  Pulse._waiters (base (fst s)) = [] /\
  Loop.timers (snd s)
  = map (fun i => Loop.mkHandle (deadline T P i) false true) (seq 0 n)
    ++ [Loop.mkHandle (deadline T P n) false false] /\
  map snd (Loop.fire_log (snd s)) = map Some (seq 0 n).

(** The inherited [wait] works on the [_BasePulse] fields. *)
Definition wait : M (t * Loop.t) nat :=
  fun s =>
    match Pulse.wait (base (fst s), snd s) with
    | (o, (p, l)) =>
        (o, (mk p (_period (fst s)) (_start_time (fst s)) (_ticks (fst s)), l))
    end.

Definition live (u : Loop.use) (s : t * Loop.t) : t * Loop.t :=
  match u with
  | Loop.Turn d => Loop.run_once _tick d s
  | Loop.Await => snd (wait s)
  end.

Definition lives (us : list Loop.use) (s : t * Loop.t) : t * Loop.t :=
  fold_left (fun s u => live u s) us s.

(** As [ticking], with tasks waiting on the pulse, none of which has
    abandoned its wait. *)
Definition ticking_awaited (T P : Z) (n : nat) (s : t * Loop.t) : Prop :=
  _start_time (fst s) = T /\ _period (fst s) = P /\ _ticks (fst s) = Z.of_nat n /\
  Pulse.waiters_pending (base (fst s), snd s) /\
  Loop.timers (snd s)
  = map (fun i => Loop.mkHandle (deadline T P i) false true) (seq 0 n)
    ++ [Loop.mkHandle (deadline T P n) false false] /\
  map snd (Loop.fire_log (snd s)) = map Some (seq 0 n).

End TimePulse.

(** ** constant_timer.py *)

Module Ticker.

Record t : Type := mk {
  _iteration_count : Z;
  _ready_pulse : Pulse.t;
  _done_event : Event.t;
  _period : Z;
  _start_time : Z;
  _count : option Z;
  _started : bool;
  _tick_handle : option nat
}.

Definition with_iteration_count (n : Z) (k : t) : t :=
  mk n (_ready_pulse k) (_done_event k) (_period k) (_start_time k) (_count k)
     (_started k) (_tick_handle k).

Definition with_done_event (e : Event.t) (k : t) : t :=
  mk (_iteration_count k) (_ready_pulse k) e (_period k) (_start_time k) (_count k)
     (_started k) (_tick_handle k).

Definition with_started (b : bool) (start : Z) (k : t) : t :=
  mk (_iteration_count k) (_ready_pulse k) (_done_event k) (_period k) start (_count k)
     b (_tick_handle k).

Definition with_tick_handle (h : option nat) (k : t) : t :=
  mk (_iteration_count k) (_ready_pulse k) (_done_event k) (_period k) (_start_time k)
     (_count k) (_started k) h.

Local Open Scope py_scope.

Definition is_done (k : t) : bool := Event.is_set (_done_event k).

(** [self._ready_pulse.fire()] *)
Definition fire_ready_pulse : M (t * Loop.t) unit :=
  fun s =>
    match Pulse.fire (_ready_pulse (fst s), snd s) with
    | (o, (p, l)) =>
        (o, (mk (_iteration_count (fst s)) p (_done_event (fst s)) (_period (fst s))
                (_start_time (fst s)) (_count (fst s)) (_started (fst s))
                (_tick_handle (fst s)), l))
    end.

Definition stop : M (t * Loop.t) unit :=
  k <- Loop.object ;;
  match _tick_handle k with
  | Some h =>
      Loop.lift (Loop.cancel_handle h) ;;
      Loop.on_object (fun k => with_done_event (Event.set (_done_event k)) k)
  | None => ret tt
  end.

Definition _tick : M (t * Loop.t) unit :=
  k <- Loop.object ;;
  if is_done k then ret tt
  else if match _count k with Some c => _iteration_count k >? c | None => false end
  then stop
  else
    fire_ready_pulse ;;
    k <- Loop.object ;;
    let next_time := _iteration_count k * _period k + _start_time k in
    Loop.on_object (fun k => with_iteration_count (_iteration_count k + 1) k) ;;
    h <- Loop.lift (Loop.call_at next_time) ;;
    Loop.on_object (with_tick_handle (Some h)).

Definition start : M (t * Loop.t) unit :=
  k <- Loop.object ;;
  if _started k then raise RuntimeError
  else
    now <- Loop.lift Loop.time ;;
    Loop.on_object (with_started true now) ;;
    _tick.

(** [__init__]; the set of periodic tasks, which only [run_periodically]
    touches, is left out. *)
Definition __init__ (period : Z) (count : option Z) (start_ : bool) (l : Loop.t)
    : outcome unit * (t * Loop.t) :=
  (if start_ then start else ret tt)
    ({| _iteration_count := 0;
        _ready_pulse := Pulse.__init__;
        _done_event := Event.new;
        _period := period;
        _start_time := Loop.clock l;
        _count := count;
        _started := false;
        _tick_handle := None |}, l).

(** [wait_done] returns without suspending exactly when the done event
    is set. *)
Definition wait_done_returns (k : t) : bool :=
  match Event.wait_begin 0 (_done_event k) with
  | inl _ => true
  | inr _ => false
  end.

(** The number of times the readiness pulse has fired. *)
Definition firings (s : t * Loop.t) : nat := length (Loop.fire_log (snd s)).

Definition count_exceeded (k : t) : bool :=
  match _count k with Some c => _iteration_count k >? c | None => false end.

(** The state of a started ticker after [n] timer calls, none of which
    found the count exceeded: [n + 1] firings, the first made by [start]
    itself and the others from the [n] timers called so far, and one timer
    pending, which [_tick_handle] refers to. *)
Definition running (T P : Z) (count : option Z) (n : nat) (s : t * Loop.t) : Prop :=
  is_done (fst s) = false /\
  _start_time (fst s) = T /\ _period (fst s) = P /\ _count (fst s) = count /\
  _iteration_count (fst s) = Z.of_nat (S n) /\
  Pulse._waiters (_ready_pulse (fst s)) = [] /\
  _tick_handle (fst s) = Some n /\
  Loop.timers (snd s)
  = map (fun i => Loop.mkHandle (Z.of_nat i * P + T) false true) (seq 0 n)
    ++ [Loop.mkHandle (Z.of_nat n * P + T) false false] /\
  map snd (Loop.fire_log (snd s)) = None :: map Some (seq 0 n).

(** The state of a ticker that is done after [m] firings: no timer is
    pending. *)
Definition finished (m : nat) (s : t * Loop.t) : Prop :=
  is_done (fst s) = true /\
  Forall (fun hd => Loop.is_due hd = false) (Loop.timers (snd s)) /\
  firings s = m.

(** *** The read-only properties *)

Definition period (k : t) : Z := _period k.

Definition iteration_count (k : t) : Z := _iteration_count k.

(** [until_next]: the time left to the deadline of the timer
    [_tick_handle] refers to.  The handle of a ticker is always one the
    loop gave it, so that the last branch is not reached. *)
Definition until_next : M (t * Loop.t) Z :=
  k <- Loop.object ;;
  match _tick_handle k with
  | None => raise RuntimeError
  | Some h =>
      if is_done k then raise RuntimeError
      else
        now <- Loop.lift Loop.time ;;
        l <- Loop.lift get ;;
        match Loop.timers l !! h with
        | Some hd => ret (Loop._when hd - now)
        | None => raise RuntimeError
        end
  end.

(** [__await__]: awaiting the ticker is waiting on its readiness
    pulse. *)
Definition __await__ : M (t * Loop.t) nat :=
  fun s =>
    match Pulse.wait (_ready_pulse (fst s), snd s) with
    | (o, (p, l)) =>
        (o, (mk (_iteration_count (fst s)) p (_done_event (fst s)) (_period (fst s))
                (_start_time (fst s)) (_count (fst s)) (_started (fst s))
                (_tick_handle (fst s)), l))
    end.

Definition live (u : Loop.use) (s : t * Loop.t) : t * Loop.t :=
  match u with
  | Loop.Turn d => Loop.run_once _tick d s
  | Loop.Await => snd (__await__ s)
  end.

Definition lives (us : list Loop.use) (s : t * Loop.t) : t * Loop.t :=
  fold_left (fun s u => live u s) us s.

(** As [running], with tasks awaiting the ticker, none of which has
    abandoned its wait. *)
Definition running_awaited (T P : Z) (count : option Z) (n : nat) (s : t * Loop.t)
    : Prop :=
  is_done (fst s) = false /\
  _start_time (fst s) = T /\ _period (fst s) = P /\ _count (fst s) = count /\
  _iteration_count (fst s) = Z.of_nat (S n) /\
  Pulse.waiters_pending (_ready_pulse (fst s), snd s) /\
  _tick_handle (fst s) = Some n /\
  Loop.timers (snd s)
  = map (fun i => Loop.mkHandle (Z.of_nat i * P + T) false true) (seq 0 n)
    ++ [Loop.mkHandle (Z.of_nat n * P + T) false false] /\
  map snd (Loop.fire_log (snd s)) = None :: map Some (seq 0 n).

(** A ticker that is done, its iteration count the number of firings. *)
Definition settled (s : t * Loop.t) : Prop :=
  is_done (fst s) = true /\
  _iteration_count (fst s) = Z.of_nat (firings s).

(** A ticker that has never fired and has no timer. *)
Definition idle (s : t * Loop.t) : Prop :=
  Loop.timers (snd s) = [] /\ Loop.fire_log (snd s) = [] /\
  _iteration_count (fst s) = 0.

End Ticker.

(** * Properties *)

(** ** The bounded counter *)

Section CounterFacts.

Import EventfulCounter.

Ltac unfold_counter :=
  unfold apply, inc, dec, set_min_value, set_max_value, set, set_comparing_assigned,
    enter_max, leave_min, enter_min, leave_max,
    assigned_enter_max, assigned_leave_min, assigned_enter_min, assigned_leave_max,
    gt_bound, lt_bound, bind, ret, raise, get, modify, when,
    with_counter, with_min_value, with_max_value, on_min_ev, on_max_ev,
    latches_agree, latches_have_bounds, within_bounds, bounds_apart, bounds_ordered,
    at_min, at_max, min_is_set, max_is_set,
    Switch.set_state, Switch.set, Switch.clear, Switch.is_set in *.

Ltac split_compare :=
  match goal with
  | |- context [Z.leb ?a ?b] => destruct (Z.leb_spec a b)
  | |- context [Z.ltb ?a ?b] => destruct (Z.ltb_spec a b)
  | H : context [Z.leb ?a ?b] |- _ => destruct (Z.leb_spec a b)
  | H : context [Z.ltb ?a ?b] |- _ => destruct (Z.ltb_spec a b)
  end.

Ltac crush_counter :=
  repeat (unfold_counter; cbn in *; rewrite ?Z.geb_leb, ?Z.gtb_ltb in *;
          try split_compare);
  cbn in *; try discriminate; try lia; try tauto; try reflexivity.

(** Leaving the degenerate interval [min = max] aside, comparing the stored
    value and comparing the assigned value come to the same. *)
Lemma set_compares_assigned_when_apart (value : Z) (c : t) :
  _clamp_to_bounds c = false \/ bounds_apart c = true ->
  set value c = set_comparing_assigned value c.
Proof.
  destruct c as [v mx mn cl [mon moff ms] [xon xoff xs]].
  destruct mx as [mx|], mn as [mn|], cl, ms, xs; intros [H|H];
    crush_counter.
Qed.

(** C4, as stated, fails: on [pinned], [set(-5)] clamps the stored value
    to the minimum, finds [0 < 0] false and leaves the max latch up, where
    comparing the assigned [-5] against the maximum would have cleared
    it. *)
Lemma set_compares_stored_value :
  max_is_set (snd (set (-5) pinned)) = true /\
  max_is_set (snd (set_comparing_assigned (-5) pinned)) = false /\
  ~ (forall (value : Z) (c : t), set value c = set_comparing_assigned value c).
Proof.
  split; [reflexivity | split; [reflexivity |]].
  intros H. specialize (H (-5) pinned).
  apply (f_equal (fun r => max_is_set (snd r))) in H.
  vm_compute in H. discriminate.
Qed.

(** C4, amended: [set] compares the stored value as it stands at each of
    its steps -- inclusively to enter a bound, strictly to leave one --
    and whenever clamping is off, a bound is absent or [min < max] this is
    the same as making every comparison on the un-clamped assigned
    value. *)
Theorem set_hysteresis_on_assigned_value (value : Z) (c : t) :
  _clamp_to_bounds c = false \/ bounds_apart c = true ->
  set value c = set_comparing_assigned value c.
Proof. apply set_compares_assigned_when_apart. Qed.

Lemma set_hysteresis_on_assigned_value_witness :
  set 15 (snd (__init__ 0 (Some 10) (Some 0) true))
  = set_comparing_assigned 15 (snd (__init__ 0 (Some 10) (Some 0) true)).
Proof.
  apply (set_hysteresis_on_assigned_value 15
           (snd (__init__ 0 (Some 10) (Some 0) true))).
  right. reflexivity.
Defined.



(** [set] ends normally when no latch is up without its bound, keeps the
    bounds and the clamping flag, and leaves the latches in agreement with
    the stored value unless clamping is on and the bounds coincide. *)
Lemma set_latches_agree (v : Z) (c : t) :
  latches_have_bounds c = true ->
  fst (set v c) = Ret tt /\
  _min_value (snd (set v c)) = _min_value c /\
  _max_value (snd (set v c)) = _max_value c /\
  _clamp_to_bounds (snd (set v c)) = _clamp_to_bounds c /\
  (_clamp_to_bounds c = false \/ bounds_apart c = true ->
   latches_agree (snd (set v c)) = true).
Proof.
  destruct c as [x mx mn cl [mon moff ms] [xon xoff xs]].
  destruct mx as [mx|], mn as [mn|], cl, ms, xs; intros Hc;
    cbn in Hc; try discriminate Hc;
    (split; [|split; [|split; [|split; [|intros [H|H]]]]]); crush_counter.
Qed.

Lemma latches_agree_have_bounds (c : t) :
  latches_agree c = true -> latches_have_bounds c = true.
Proof.
  destruct c as [x mx mn cl [mon moff ms] [xon xoff xs]].
  destruct mx as [mx|], mn as [mn|], ms, xs; cbn; intros H;
    try reflexivity; try discriminate H;
    unfold latches_agree in H; cbn in H;
    rewrite ?andb_false_r in H; discriminate H.
Qed.

(** Every mutation ends normally or, for a rejected bound, with
    [ValueError] and no change; and it keeps the latches in agreement with
    the stored value unless clamping is on and the bounds coincide. *)
Lemma apply_latches_agree (m : mutation) (c : t) :
  latches_agree c = true ->
  (fst (apply m c) = Raise ValueError /\ snd (apply m c) = c) \/
  (fst (apply m c) = Ret tt /\
   (_clamp_to_bounds c = false \/ bounds_apart (snd (apply m c)) = true ->
    latches_agree (snd (apply m c)) = true)).
Proof.
  intros Hc. pose proof (latches_agree_have_bounds c Hc) as Hb.
  destruct m as [v|d|d|[b|]|[b|]]; cbn [apply].
  - right. destruct (set_latches_agree v c Hb) as (Ho & Hmn & Hmx & Hcl & Hl).
    split; [exact Ho|]. intros [H|H]; apply Hl; [left; exact H|right].
    unfold bounds_apart in *. rewrite Hmn, Hmx in H. exact H.
  - right. unfold inc, bind, get.
    destruct (set_latches_agree (_counter c + d) c Hb) as (Ho & Hmn & Hmx & Hcl & Hl).
    split; [exact Ho|]. intros [H|H]; apply Hl; [left; exact H|right].
    unfold bounds_apart in *. rewrite Hmn, Hmx in H. exact H.
  - right. unfold dec, bind, get.
    destruct (set_latches_agree (_counter c - d) c Hb) as (Ho & Hmn & Hmx & Hcl & Hl).
    split; [exact Ho|]. intros [H|H]; apply Hl; [left; exact H|right].
    unfold bounds_apart in *. rewrite Hmn, Hmx in H. exact H.
  - unfold set_min_value, bind, get.
    destruct (match _max_value c with Some mx => b >? mx | None => false end) eqn:E;
      [left; split; reflexivity|right].
    cbn -[set].
    assert (Hb' : latches_have_bounds (with_min_value (Some b) c) = true).
    { destruct c as [x mx mn cl [mon moff ms] [xon xoff xs]].
      destruct mx, mn, ms, xs; cbn in *; congruence. }
    destruct (set_latches_agree (_counter c) (with_min_value (Some b) c) Hb')
      as (Ho & Hmn & Hmx & Hcl & Hl).
    split; [exact Ho|]. intros [H|H]; apply Hl; [left; exact H|right].
    unfold bounds_apart in *. rewrite Hmn, Hmx in H. exact H.
  - right. split; [reflexivity|]. intros _.
    destruct c as [x mx mn cl [mon moff ms] [xon xoff xs]].
    unfold latches_agree, at_min, at_max, min_is_set, max_is_set in *. cbn in *.
    apply andb_true_iff in Hc as [_ Hc]. destruct ms; cbn; exact Hc.
  - unfold set_max_value, bind, get.
    destruct (match _min_value c with Some mn => b <? mn | None => false end) eqn:E;
      [left; split; reflexivity|right].
    cbn -[set].
    assert (Hb' : latches_have_bounds (with_max_value (Some b) c) = true).
    { destruct c as [x mx mn cl [mon moff ms] [xon xoff xs]].
      destruct mx, mn, ms, xs; cbn in *; congruence. }
    destruct (set_latches_agree (_counter c) (with_max_value (Some b) c) Hb')
      as (Ho & Hmn & Hmx & Hcl & Hl).
    split; [exact Ho|]. intros [H|H]; apply Hl; [left; exact H|right].
    unfold bounds_apart in *. rewrite Hmn, Hmx in H. exact H.
  - right. split; [reflexivity|]. intros _.
    destruct c as [x mx mn cl [mon moff ms] [xon xoff xs]].
    unfold latches_agree, at_min, at_max, min_is_set, max_is_set in *. cbn in *.
    apply andb_true_iff in Hc as [Hc _]. destruct xs; cbn; rewrite Hc; reflexivity.
Qed.

(** The constructor establishes the agreement under the same proviso,
    and with clamping on the stored value then lies within the bounds. *)
Lemma init_latches_agree (v : Z) (mx mn : option Z) (cl : bool) :
  fst (__init__ v mx mn cl) = Ret tt /\
  (cl = false \/ bounds_apart (snd (__init__ v mx mn cl)) = true ->
   latches_agree (snd (__init__ v mx mn cl)) = true /\
   (cl = true -> within_bounds (snd (__init__ v mx mn cl)) = true)).
Proof.
  unfold __init__.
  destruct mx as [mx|], mn as [mn|], cl;
    (split; [|intros [H|H]; (split; [|intros Hcl])]); crush_counter.
Qed.

(** C3 at a failing input.  [EventfulCounter(-5, max_value=0,
    clamp_to_bounds=True)] has its latches in agreement; assigning
    [min_value = 0] completes, keeps [min <= max], moves the stored value
    to [0], which is the maximum, and leaves the max latch down. *)
Theorem latches_disagree_after_min_value_assignment :
  let c := snd (__init__ (-5) (Some 0) None true) in
  let c' := snd (set_min_value (Some 0) c) in
  latches_agree c = true /\
  fst (set_min_value (Some 0) c) = Ret tt /\
  bounds_ordered c' = true /\
  _counter c' = 0 /\ _max_value c' = Some 0 /\
  max_is_set c' = false /\
  latches_agree c' = false.
Proof. cbv zeta. repeat split; reflexivity. Qed.

End CounterFacts.

(** ** The broadcast pulse *)

Section PulseFacts.

Import Loop Pulse.

Lemma wait_eq (p : Pulse.t) (l : Loop.t) :
  wait (p, l)
  = (Ret (length (futures l)),
     (Pulse.mk (_waiters p ++ [length (futures l)]) (Pulse._value p),
      with_futures (futures l ++ [Pending]) (_ready l) l)).
Proof. reflexivity. Qed.

Lemma fire_eq (p : Pulse.t) (l : Loop.t) :
  fire (p, l)
  = match set_results (_waiters p) (clock l) (logged l) with
    | (Ret _, l') => (Ret tt, (Pulse.mk [] (Some (clock l)), l'))
    | (Raise e, l') => (Raise e, (Pulse.mk (_waiters p) (Some (clock l)), l'))
    end.
Proof.
  unfold fire, _fire, bind, lift, on_object, object, time, get, modify, ret. cbn.
  destruct (set_results (_waiters p) (clock l) (logged l)) as [[[]|e] l']; reflexivity.
Qed.

(** The store after the futures [futs] have taken the result [v]. *)
Lemma set_results_pending (v : Z) (futs : list nat) : forall l : Loop.t,
  NoDup futs ->
  (forall fut, fut ∈ futs -> futures l !! fut = Some Pending) ->
  exists fs',
    set_results futs v l = (Ret tt, with_futures fs' (_ready l ++ futs) l) /\
    length fs' = length (futures l) /\
    (forall fut, fut ∈ futs -> fs' !! fut = Some (Finished v)) /\
    (forall fut, fut ∉ futs -> fs' !! fut = futures l !! fut).
Proof.
  induction futs as [|f futs IH]; intros l Hnd Hp.
  - exists (futures l). cbn. rewrite app_nil_r. destruct l.
    repeat split; try reflexivity. intros fut H. inversion H.
  - apply NoDup_cons in Hnd as [Hf Hnd].
    assert (Hpf : futures l !! f = Some Pending) by (apply Hp; left).
    set (l1 := with_futures (<[f := Finished v]> (futures l)) (_ready l ++ [f]) l).
    destruct (IH l1 Hnd) as (fs' & Hrun & Hlen & Hin & Hout).
    { intros fut Hfut. cbn. rewrite list_lookup_insert_ne.
      - apply Hp. right. exact Hfut.
      - intros ->. apply Hf, Hfut. }
    exists fs'. split; [|split; [|split]].
    + cbn [set_results]. unfold bind at 1, set_result, bind at 1, get. cbn.
      rewrite Hpf. unfold modify. cbn. fold l1. rewrite Hrun. cbn.
      rewrite <- app_assoc. reflexivity.
    + rewrite Hlen. cbn. apply length_insert.
    + intros fut Hfut. apply elem_of_cons in Hfut as [->|Hfut].
      * rewrite Hout by exact Hf. cbn. apply list_lookup_insert_eq.
        eapply lookup_lt_Some, Hpf.
      * apply Hin, Hfut.
    + intros fut Hfut. apply not_elem_of_cons in Hfut as [Hne Hfut].
      rewrite Hout by exact Hfut. cbn. apply list_lookup_insert_ne. congruence.
Qed.

Lemma fire_pending (p : Pulse.t) (l : Loop.t) :
  waiters_pending (p, l) ->
  exists fs',
    fire (p, l)
    = (Ret tt, (Pulse.mk [] (Some (clock l)),
                with_futures fs' (_ready l ++ _waiters p) (logged l))) /\
    length fs' = length (futures l) /\
    (forall fut, fut ∈ _waiters p -> fs' !! fut = Some (Finished (clock l))) /\
    (forall fut, fut ∉ _waiters p -> fs' !! fut = futures l !! fut).
Proof.
  intros [Hnd Hp]. cbn in Hnd, Hp.
  destruct (set_results_pending (clock l) (_waiters p) (logged l) Hnd Hp)
    as (fs' & Hrun & Hlen & Hin & Hout).
  exists fs'. rewrite fire_eq, Hrun. repeat split; assumption.
Qed.

Lemma step_waiters_pending (o : op) (s : Pulse.t * Loop.t) :
  not_abandon o = true ->
  waiters_pending s -> waiters_pending (snd (step o s)).
Proof.
  destruct s as [p l]. destruct o as [| |fut|d]; intros Ho Hs;
    try discriminate Ho; clear Ho.
  - destruct Hs as [Hnd Hp]. cbn in Hnd, Hp.
    unfold step, bind. rewrite wait_eq. cbn. split; cbn.
    + apply NoDup_app. repeat split.
      * exact Hnd.
      * intros fut Hfut Hin. apply list_elem_of_singleton in Hin. subst fut.
        apply Hp, lookup_lt_Some in Hfut. lia.
      * apply NoDup_singleton.
    + intros fut Hfut. apply elem_of_app in Hfut as [Hfut|Hfut].
      * rewrite lookup_app_l by (eapply lookup_lt_Some, Hp, Hfut).
        apply Hp, Hfut.
      * apply list_elem_of_singleton in Hfut. subst fut.
        rewrite lookup_app_r by lia. rewrite Nat.sub_diag. reflexivity.
  - destruct (fire_pending p l Hs) as (fs' & Hrun & _).
    unfold step, bind. rewrite Hrun. cbn. split; cbn.
    + apply NoDup_nil_2.
    + intros fut Hfut. inversion Hfut.
  - exact Hs.
Qed.

Lemma steps_waiters_pending (os : list op) : forall s : Pulse.t * Loop.t,
  forallb not_abandon os = true ->
  waiters_pending s -> waiters_pending (snd (steps os s)).
Proof.
  induction os as [|o os IH]; intros s Hos Hs; [exact Hs|].
  cbn in Hos. apply andb_true_iff in Hos as [Ho Hos].
  cbn. apply IH; [exact Hos|]. apply step_waiters_pending; assumption.
Qed.

Lemma step_wait_eq (p : Pulse.t) (l : Loop.t) :
  step Wait (p, l)
  = (Ret (Some (length (futures l))),
     (Pulse.mk (_waiters p ++ [length (futures l)]) (Pulse._value p),
      with_futures (futures l ++ [Pending]) (_ready l) l)).
Proof. reflexivity. Qed.

(** The waiters are kept in the order of subscription. *)
Lemma waits_in_order (k : nat) : forall s : Pulse.t * Loop.t,
  _waiters (fst (snd (steps (repeat Wait k) s)))
  = _waiters (fst s) ++ returned (fst (steps (repeat Wait k) s)).
Proof.
  induction k as [|k IH]; intros [p l].
  - cbn. rewrite app_nil_r. reflexivity.
  - cbn [repeat steps]. rewrite step_wait_eq.
    cbn [fst snd returned]. rewrite IH. cbn [fst Pulse._waiters].
    rewrite <- app_assoc. reflexivity.
Qed.

Lemma set_result_eq (fut : nat) (v : Z) (l : Loop.t) :
  set_result fut v l
  = match futures l !! fut with
    | Some Pending =>
        (Ret tt, with_futures (<[fut := Finished v]> (futures l)) (_ready l ++ [fut]) l)
    | _ => (Raise InvalidStateError, l)
    end.
Proof.
  unfold set_result, bind, get. cbn.
  destruct (futures l !! fut) as [[]|]; reflexivity.
Qed.

(** [set_results] reads and writes the futures and their completion
    order only. *)
Lemma set_results_visible (v : Z) (futs : list nat) : forall l1 l2 : Loop.t,
  futures l1 = futures l2 -> _ready l1 = _ready l2 ->
  fst (set_results futs v l1) = fst (set_results futs v l2) /\
  futures (snd (set_results futs v l1)) = futures (snd (set_results futs v l2)) /\
  _ready (snd (set_results futs v l1)) = _ready (snd (set_results futs v l2)) /\
  clock (snd (set_results futs v l1)) = clock l1 /\
  clock (snd (set_results futs v l2)) = clock l2.
Proof.
  induction futs as [|f futs IH]; intros l1 l2 Hf Hr.
  - cbn. auto.
  - cbn [set_results]. unfold bind. rewrite !set_result_eq, <- Hf, <- Hr.
    destruct (futures l1 !! f) as [[]|]; cbn; auto.
    apply (IH (with_futures _ _ l1) (with_futures _ _ l2)); reflexivity.
Qed.

(** An operation's outcome and visible effect depend on the visible part
    of the state only. *)
Lemma step_visible (o : op) (s1 s2 : Pulse.t * Loop.t) :
  visible s1 = visible s2 ->
  fst (step o s1) = fst (step o s2) /\
  visible (snd (step o s1)) = visible (snd (step o s2)).
Proof.
  destruct s1 as [p1 l1], s2 as [p2 l2]. unfold visible at 1 2. cbn [fst snd].
  intros H. injection H as Hw Hf Hr Hc.
  destruct o as [| |fut|d].
  - rewrite !step_wait_eq. unfold visible. cbn. rewrite Hw, Hf, Hr, Hc. auto.
  - unfold step, bind. rewrite !fire_eq, Hw, Hc.
    destruct (set_results_visible (clock l2) (_waiters p2) (logged l1) (logged l2))
      as (Ho & Hf' & Hr' & Hc1 & Hc2); [exact Hf | exact Hr |].
    destruct (set_results (_waiters p2) (clock l2) (logged l1)) as [[[]|e1] l1'],
             (set_results (_waiters p2) (clock l2) (logged l2)) as [[[]|e2] l2'];
      cbn in *; try discriminate Ho; unfold visible; cbn;
      rewrite ?Hf', ?Hr', Hc1, Hc2, ?Hc; auto.
    injection Ho as ->. auto.
  - unfold step, bind, lift, cancel, bind, get, modify, ret, visible. cbn.
    rewrite Hf. destruct (futures l2 !! fut) as [[]|]; cbn; rewrite ?Hw, ?Hf, ?Hr, ?Hc; auto.
  - unfold visible. cbn. rewrite Hw, Hf, Hr, Hc. auto.
Qed.

Lemma steps_visible (os : list op) : forall s1 s2 : Pulse.t * Loop.t,
  visible s1 = visible s2 ->
  fst (steps os s1) = fst (steps os s2) /\
  visible (snd (steps os s1)) = visible (snd (steps os s2)).
Proof.
  induction os as [|o os IH]; intros s1 s2 H; [cbn; auto|].
  destruct (step_visible o s1 s2 H) as [Ho Hv].
  destruct (IH _ _ Hv) as [Hos Hvs].
  cbn. rewrite Ho, Hos. auto.
Qed.

(** As long as no waiter has abandoned its wait -- in a pulse used
    through [wait] and [fire] only -- a call of [fire] completes and
    resolves every waiter pending at that moment with the one clock
    reading, in the order the waiters subscribed and no other future; a
    waiter subscribing afterwards gets a fresh pending future; and a
    [fire] that finds no waiter changes nothing that can be seen, then or
    in any later use of the pulse. *)
Theorem fire_wakes_the_pending_waiters
    (os : list op) (l0 : Loop.t) (k : nat) :
  forallb not_abandon os = true ->
  let s0 := snd (steps os (Pulse.__init__, l0)) in
  let r := steps (repeat Wait k) s0 in
  let s := snd r in
  let s' := snd (fire s) in
  fst (fire s) = Ret tt /\
  _waiters (fst s) = _waiters (fst s0) ++ returned (fst r) /\
  _ready (snd s') = _ready (snd s) ++ _waiters (fst s) /\
  (forall fut, fut ∈ _waiters (fst s) ->
     futures (snd s') !! fut = Some (Finished (clock (snd s)))) /\
  (forall fut, fut ∉ _waiters (fst s) ->
     futures (snd s') !! fut = futures (snd s) !! fut) /\
  _waiters (fst s') = [] /\
  (exists fut, fst (wait s') = Ret fut /\ (fut ∉ _waiters (fst s)) /\
     futures (snd (snd (wait s'))) !! fut = Some Pending /\
     _waiters (fst (snd (wait s'))) = [fut]) /\
  (_waiters (fst s) = [] ->
     visible s' = visible s /\
     forall os', fst (steps os' s') = fst (steps os' s) /\
                 visible (snd (steps os' s')) = visible (snd (steps os' s))).
Proof.
  intros Hos s0 r s s'.
  assert (H0 : waiters_pending s0).
  { apply steps_waiters_pending; [exact Hos|]. split; cbn.
    - apply NoDup_nil_2.
    - intros fut Hfut. inversion Hfut. }
  assert (Hs : waiters_pending s).
  { apply steps_waiters_pending; [|exact H0].
    clear. induction k; [reflexivity | exact IHk]. }
  assert (Hord : _waiters (fst s) = _waiters (fst s0) ++ returned (fst r))
    by apply waits_in_order.
  subst s'. clearbody s. destruct s as [p l].
  destruct (fire_pending p l Hs) as (fs' & Hrun & Hlen & Hin & Hout).
  rewrite Hrun. cbn [fst snd] in *.
  split; [reflexivity|]. split; [exact Hord|]. split; [reflexivity|].
  split; [exact Hin|]. split; [exact Hout|]. split; [reflexivity|]. split.
  - exists (length fs'). rewrite wait_eq. cbn. repeat split.
    + intros Hfut. destruct Hs as [_ Hp]. apply Hp, lookup_lt_Some in Hfut.
      cbn in Hfut. lia.
    + rewrite lookup_app_r by lia. rewrite Nat.sub_diag. reflexivity.
  - intros Hw. rewrite Hw in *.
    assert (Hfs : fs' = futures l).
    { apply list_eq. intros i. apply Hout, not_elem_of_nil. }
    subst fs'.
    assert (Hvis : visible (Pulse.mk [] (Some (clock l)),
                            with_futures (futures l) (_ready l ++ []) (logged l))
                   = visible (p, l)).
    { unfold visible. cbn. rewrite Hw, app_nil_r. reflexivity. }
    split; [exact Hvis|]. intros os'. apply steps_visible, Hvis.
Qed.

Lemma fire_wakes_the_pending_waiters_witness :
  forallb not_abandon [Wait; Sleep 3; Fire; Wait] = true /\
  fst (fire (snd (steps (repeat Wait 2)
                    (snd (steps [Wait; Sleep 3; Fire; Wait]
                            (Pulse.__init__, Loop.new 7))))))
  = Ret tt.
Proof.
  split; [reflexivity|].
  exact (proj1 (fire_wakes_the_pending_waiters
                  [Wait; Sleep 3; Fire; Wait] (Loop.new 7) 2 eq_refl)).
Defined.

(** C6 at a failing input.  Three tasks wait; the second abandons its
    wait; [fire] then resolves the first waiter, raises
    [InvalidStateError] on the cancelled future, and neither resolves the
    third waiter nor empties the waiters, so that the next [fire] raises
    on the first future and the third waiter is never woken. *)
Theorem fire_fails_after_an_abandoned_wait :
  let r := steps [Wait; Wait; Wait; Abandon 1; Fire; Fire]
             (Pulse.__init__, Loop.new 0) in
  fst r = [Ret (Some 0%nat); Ret (Some 1%nat); Ret (Some 2%nat); Ret None;
           Raise InvalidStateError; Raise InvalidStateError] /\
  futures (snd (snd r)) = [Finished 0; Cancelled; Pending] /\
  _waiters (fst (snd r)) = [0%nat; 1%nat; 2%nat].
Proof. cbv zeta. repeat split; reflexivity. Qed.

(** C5 at a failing input.  Three tasks wait and the second abandons its
    wait.  When [fire] is called, five clock units later, the third
    task's future is registered and pending; [fire] resolves the first
    waiter, raises [InvalidStateError] on the cancelled future and leaves
    the third waiter pending: the waiters pending at the moment of the
    call are not all resolved. *)
Theorem fire_leaves_a_pending_waiter_unresolved :
  let s := snd (steps [Wait; Wait; Wait; Abandon 1; Sleep 5]
                  (Pulse.__init__, Loop.new 0)) in
  _waiters (fst s) = [0%nat; 1%nat; 2%nat] /\
  futures (snd s) = [Pending; Cancelled; Pending] /\
  fst (fire s) = Raise InvalidStateError /\
  futures (snd (snd (fire s))) = [Finished 5; Cancelled; Pending] /\
  _ready (snd (snd (fire s))) = [1%nat; 0%nat].
Proof. cbv zeta. repeat split; reflexivity. Qed.

End PulseFacts.

(** ** Timers *)

Section TimerFacts.

Import Loop.

(** Timers that were called or cancelled are passed over. *)
Lemma earliest_skip (ts rest : list TimerHandle) : forall i best,
  Forall (fun hd => is_due hd = false) ts ->
  earliest i (ts ++ rest) best = earliest (i + length ts) rest best.
Proof.
  induction ts as [|hd ts IH]; intros i best Hts; cbn.
  - rewrite Nat.add_0_r. reflexivity.
  - apply Forall_cons in Hts as [Hhd Hts]. rewrite Hhd, IH by exact Hts.
    f_equal. lia.
Qed.

Lemma next_timer_last (l : Loop.t) (ts : list TimerHandle) (w : Z) :
  timers l = ts ++ [mkHandle w false false] ->
  Forall (fun hd => is_due hd = false) ts ->
  next_timer l = Some (length ts, w).
Proof.
  intros Hl Hts. unfold next_timer. rewrite Hl, earliest_skip by exact Hts.
  reflexivity.
Qed.

Lemma next_timer_none (l : Loop.t) :
  Forall (fun hd => is_due hd = false) (timers l) -> next_timer l = None.
Proof.
  intros Hts. unfold next_timer.
  rewrite <- (app_nil_r (timers l)), earliest_skip by exact Hts. reflexivity.
Qed.

Lemma called_not_due (f : nat -> Z) (c : bool) (js : list nat) :
  Forall (fun hd => is_due hd = false) (map (fun i => mkHandle (f i) c true) js).
Proof.
  apply Forall_map, Forall_forall. intros i _. cbn. apply andb_false_r.
Qed.

Lemma mark_last (ts : list TimerHandle) (n : nat) (hd hd' : TimerHandle) :
  length ts = n -> <[n := hd']> (ts ++ [hd]) = ts ++ [hd'].
Proof.
  intros <-. rewrite insert_app_r_alt by lia. rewrite Nat.sub_diag. reflexivity.
Qed.

Lemma lookup_last (ts : list TimerHandle) (n : nat) (hd : TimerHandle) :
  length ts = n -> (ts ++ [hd]) !! n = Some hd.
Proof.
  intros <-. rewrite lookup_app_r by lia. rewrite Nat.sub_diag. reflexivity.
Qed.

(** *** TimePulse *)

Lemma time_pulse_tick_eq (p : TimePulse.t) (l : Loop.t) :
  Pulse._waiters (TimePulse.base p) = [] ->
  TimePulse._tick (p, l)
  = (Ret tt,
     (TimePulse.mk (Pulse.mk [] (Some (clock l))) (TimePulse._period p)
        (TimePulse._start_time p) (TimePulse._ticks p + 1),
      with_timers
        (timers l ++ [mkHandle (TimePulse._start_time p
                                + TimePulse._period p * (TimePulse._ticks p + 1))
                        false false])
        (logged l))).
Proof.
  intros Hw. destruct p as [[ws v] P T n]. cbn in Hw. subst ws. reflexivity.
Qed.

Lemma time_pulse_init_ticking (P t0 : Z) :
  TimePulse.ticking t0 P 0 (TimePulse.__init__ P (Loop.new t0)).
Proof.
  unfold TimePulse.ticking, TimePulse.deadline. cbn.
  repeat split; try reflexivity. do 3 f_equal. lia.
Qed.

Lemma time_pulse_run_once_ticking (T P : Z) (n d : nat) (s : TimePulse.t * Loop.t) :
  TimePulse.ticking T P n s ->
  TimePulse.ticking T P (S n) (run_once TimePulse._tick d s).
Proof.
  destruct s as [p l]. intros (HT & HP & Hn & Hw & Hts & Hlog). cbn [fst snd] in *.
  unfold run_once. cbn [fst snd].
  erewrite next_timer_last; [|exact Hts|apply called_not_due].
  rewrite time_pulse_tick_eq by exact Hw. cbn [fst snd].
  unfold TimePulse.ticking. rewrite !seq_S, !map_app. cbn.
  rewrite HT, HP, Hn, Hts, length_map, length_seq.
  rewrite lookup_last by (rewrite length_map, length_seq; reflexivity).
  cbn. rewrite mark_last by (rewrite length_map, length_seq; reflexivity).
  repeat split; try reflexivity.
  - lia.
  - do 3 f_equal. unfold TimePulse.deadline. do 2 f_equal. lia.
  - rewrite map_app, Hlog. reflexivity.
Qed.

Lemma time_pulse_run_ticking (T P : Z) (delays : list nat) :
  forall (n : nat) (s : TimePulse.t * Loop.t),
  TimePulse.ticking T P n s ->
  TimePulse.ticking T P (n + length delays) (run TimePulse._tick delays s).
Proof.
  induction delays as [|d ds IH]; intros n s Hs; cbn.
  - rewrite Nat.add_0_r. exact Hs.
  - replace (n + S (length ds))%nat with (S n + length ds)%nat by lia.
    apply IH, time_pulse_run_once_ticking, Hs.
Qed.

Lemma time_pulse_firing_deadline (T P : Z) (n k : nat) (s : TimePulse.t * Loop.t) :
  TimePulse.ticking T P n s -> (k < n)%nat ->
  firing_deadline (S k) (snd s) = Some (TimePulse.deadline T P k).
Proof.
  intros (_ & _ & _ & _ & Hts & Hlog) Hk. unfold firing_deadline. cbn [pred].
  assert (Hk' : map snd (fire_log (snd s)) !! k = Some (Some k)).
  { rewrite Hlog, list_lookup_fmap, lookup_seq_lt by exact Hk. reflexivity. }
  rewrite list_lookup_fmap in Hk'.
  destruct (fire_log (snd s) !! k) as [[c h]|]; [|discriminate Hk'].
  cbn in Hk'. injection Hk' as ->.
  rewrite Hts, lookup_app_l by (rewrite length_map, length_seq; exact Hk).
  rewrite list_lookup_fmap, lookup_seq_lt by exact Hk. reflexivity.
Qed.

(** *** Ticker *)

Lemma stop_eq (k : Ticker.t) (l : Loop.t) :
  Ticker.stop (k, l)
  = match Ticker._tick_handle k with
    | Some h =>
        (Ret tt,
         (Ticker.with_done_event (Event.set (Ticker._done_event k)) k,
          match timers l !! h with
          | Some hd =>
              with_timers (<[h := mkHandle (_when hd) true (_called hd)]> (timers l)) l
          | None => l
          end))
    | None => (Ret tt, (k, l))
    end.
Proof.
  unfold Ticker.stop, bind, object, get, ret, lift, on_object, modify,
    cancel_handle, bind, get. cbn.
  destruct (Ticker._tick_handle k) as [h|]; [|reflexivity]. cbn.
  destruct (timers l !! h); reflexivity.
Qed.

Lemma ticker_tick_eq (k : Ticker.t) (l : Loop.t) :
  Ticker.is_done k = false ->
  Pulse._waiters (Ticker._ready_pulse k) = [] ->
  Ticker._tick (k, l)
  = if Ticker.count_exceeded k then Ticker.stop (k, l)
    else (Ret tt,
          (Ticker.mk (Ticker._iteration_count k + 1)
             (Pulse.mk [] (Some (clock l))) (Ticker._done_event k)
             (Ticker._period k) (Ticker._start_time k) (Ticker._count k)
             (Ticker._started k) (Some (length (timers l))),
           with_timers
             (timers l ++ [mkHandle (Ticker._iteration_count k * Ticker._period k
                                     + Ticker._start_time k) false false])
             (logged l))).
Proof.
  intros Hd Hw. destruct k as [it [ws v] ev P T c st h]. cbn in Hd, Hw. subst ws.
  unfold Ticker._tick, bind at 1, object, bind at 1, get, ret. cbn [fst snd].
  unfold Ticker.is_done, Ticker.count_exceeded in *. cbn in *. rewrite Hd.
  destruct c as [c|]; [destruct (it >? c)|]; reflexivity.
Qed.

Lemma start_eq (k : Ticker.t) (l : Loop.t) :
  Ticker.start (k, l)
  = if Ticker._started k then (Raise RuntimeError, (k, l))
    else Ticker._tick (Ticker.with_started true (clock l) k, l).
Proof.
  unfold Ticker.start, bind at 1, object, bind at 1, get, ret. cbn [fst snd].
  destruct (Ticker._started k); reflexivity.
Qed.

Lemma ticker_init_running (P t0 : Z) (count : option Z) :
  match count with Some c => 0 <=? c | None => true end = true ->
  fst (Ticker.__init__ P count true (Loop.new t0)) = Ret tt /\
  Ticker.running t0 P count 0 (snd (Ticker.__init__ P count true (Loop.new t0))).
Proof.
  intros Hc. unfold Ticker.__init__. rewrite start_eq. cbn [Ticker._started].
  rewrite ticker_tick_eq by reflexivity.
  assert (He : forall k, Ticker._count k = count -> Ticker._iteration_count k = 0 ->
                         Ticker.count_exceeded k = false).
  { intros k Hk Hi. unfold Ticker.count_exceeded. rewrite Hk, Hi.
    destruct count as [c|]; [|reflexivity].
    rewrite Z.gtb_ltb. destruct (Z.leb_spec 0 c), (Z.ltb_spec c 0);
      try reflexivity; try discriminate; lia. }
  rewrite He by reflexivity. split; [reflexivity|].
  unfold Ticker.running. cbn. repeat split; reflexivity.
Qed.

Lemma ticker_run_once_fires (T P : Z) (count : option Z) (n d : nat)
    (s : Ticker.t * Loop.t) :
  Ticker.running T P count n s ->
  Ticker.count_exceeded (fst s) = false ->
  Ticker.running T P count (S n) (run_once Ticker._tick d s).
Proof.
  destruct s as [k l].
  intros (Hd & HT & HP & Hc & Hit & Hw & Hh & Hts & Hlog) He. cbn [fst snd] in *.
  unfold run_once. cbn [fst snd].
  erewrite next_timer_last; [|exact Hts|apply called_not_due].
  rewrite ticker_tick_eq, He by assumption. cbn [fst snd].
  unfold Ticker.running. rewrite !seq_S, !map_app. cbn.
  rewrite HT, HP, Hit, Hts, length_map, length_seq.
  rewrite lookup_last by (rewrite length_map, length_seq; reflexivity).
  cbn. rewrite mark_last by (rewrite length_map, length_seq; reflexivity).
  rewrite !length_app, length_map, length_seq. cbn.
  repeat split; try assumption; try reflexivity.
  - lia.
  - f_equal. lia.
  - rewrite map_app, Hlog. reflexivity.
Qed.

Lemma ticker_run_once_stops (T P : Z) (count : option Z) (n d : nat)
    (s : Ticker.t * Loop.t) :
  Ticker.running T P count n s ->
  Ticker.count_exceeded (fst s) = true ->
  Ticker.finished (S n) (run_once Ticker._tick d s).
Proof.
  destruct s as [k l].
  intros (Hd & HT & HP & Hc & Hit & Hw & Hh & Hts & Hlog) He. cbn [fst snd] in *.
  unfold run_once. cbn [fst snd].
  erewrite next_timer_last; [|exact Hts|apply called_not_due].
  rewrite ticker_tick_eq, He, stop_eq, Hh by assumption. cbn.
  rewrite Hts, length_map, length_seq.
  rewrite lookup_last by (rewrite length_map, length_seq; reflexivity).
  cbn. rewrite mark_last by (rewrite length_map, length_seq; reflexivity).
  rewrite lookup_last by (rewrite length_map, length_seq; reflexivity).
  cbn. rewrite mark_last by (rewrite length_map, length_seq; reflexivity).
  unfold Ticker.finished, Ticker.firings, Ticker.is_done, Event.is_set, Event.set in *.
  cbn. rewrite Hd. cbn. repeat split.
  - apply Forall_app. split; [apply called_not_due|].
    apply Forall_cons. split; [reflexivity|apply Forall_nil_2].
  - rewrite <- (length_map snd), Hlog. cbn. rewrite length_map, length_seq. reflexivity.
Qed.

Lemma ticker_run_once_finished (m d : nat) (s : Ticker.t * Loop.t) :
  Ticker.finished m s -> run_once Ticker._tick d s = s.
Proof.
  intros (_ & Hts & _). unfold run_once. rewrite next_timer_none by exact Hts.
  reflexivity.
Qed.

Lemma ticker_run_finished (m : nat) (delays : list nat) (s : Ticker.t * Loop.t) :
  Ticker.finished m s -> run Ticker._tick delays s = s.
Proof.
  intros Hs. induction delays as [|d ds IH]; [reflexivity|].
  cbn. rewrite (ticker_run_once_finished m) by exact Hs. exact IH.
Qed.

Lemma ticker_run_unbounded (T P : Z) (delays : list nat) :
  forall (n : nat) (s : Ticker.t * Loop.t),
  Ticker.running T P None n s ->
  Ticker.running T P None (n + length delays) (run Ticker._tick delays s).
Proof.
  induction delays as [|d ds IH]; intros n s Hs; cbn.
  - rewrite Nat.add_0_r. exact Hs.
  - replace (n + S (length ds))%nat with (S n + length ds)%nat by lia.
    apply IH, ticker_run_once_fires; [exact Hs|].
    destruct Hs as (_ & _ & _ & Hc & _). unfold Ticker.count_exceeded.
    rewrite Hc. reflexivity.
Qed.

Lemma ticker_firing_deadline (T P : Z) (count : option Z) (n : nat)
    (s : Ticker.t * Loop.t) :
  Ticker.running T P count n s ->
  firing_deadline 1 (snd s) = None /\
  forall i, (i < n)%nat ->
    firing_deadline (S (S i)) (snd s) = Some (Z.of_nat i * P + T).
Proof.
  intros (_ & _ & _ & _ & _ & _ & _ & Hts & Hlog). unfold firing_deadline. cbn [pred].
  split.
  - assert (H0 : map snd (fire_log (snd s)) !! 0%nat = Some None)
      by (rewrite Hlog; reflexivity).
    rewrite list_lookup_fmap in H0.
    destruct (fire_log (snd s) !! 0%nat) as [[c h]|]; [|reflexivity].
    cbn in H0. injection H0 as ->. reflexivity.
  - intros i Hi.
    assert (Hk : map snd (fire_log (snd s)) !! S i = Some (Some i)).
    { rewrite Hlog, lookup_cons, list_lookup_fmap, lookup_seq_lt by exact Hi.
      reflexivity. }
    rewrite list_lookup_fmap in Hk.
    destruct (fire_log (snd s) !! S i) as [[c h]|]; [|discriminate Hk].
    cbn in Hk. injection Hk as ->.
    rewrite Hts, lookup_app_l by (rewrite length_map, length_seq; exact Hi).
    rewrite list_lookup_fmap, lookup_seq_lt by exact Hi. reflexivity.
Qed.

(** C1, on the code.  Whatever the lateness of the timer calls, the
    deadline under which the [n]th firing is made depends on the start
    time, the period and [n] alone -- but it is not [T + n * P].  A
    [TimePulse] makes its first two firings under the one deadline
    [T + P], and the [n]th, from the second on, under [T + (n - 1) * P].
    A [Ticker] makes its first firing inside [start], under no deadline,
    its second under the deadline [T], and its [n]th, from the second on,
    under [T + (n - 2) * P]. *)
Theorem firing_deadlines_lag_behind (P t0 : Z) (delays : list nat) :
  let tp := run TimePulse._tick delays (TimePulse.__init__ P (Loop.new t0)) in
  let tk := run Ticker._tick delays
              (snd (Ticker.__init__ P None true (Loop.new t0))) in
  map (fun n => firing_deadline n (snd tp)) (seq 1 (length delays))
  = map (fun n => Some (t0 + P * Z.max 1 (Z.of_nat n - 1))) (seq 1 (length delays)) /\
  map (fun n => firing_deadline n (snd tk)) (seq 1 (S (length delays)))
  = None :: map (fun n => Some ((Z.of_nat n - 2) * P + t0)) (seq 2 (length delays)) /\
  firing_deadline 2
    (snd (run TimePulse._tick [0; 3]%nat (TimePulse.__init__ 10 (Loop.new 100))))
  = Some 110 /\
  firing_deadline 2
    (snd (run Ticker._tick [0; 3]%nat
            (snd (Ticker.__init__ 10 None true (Loop.new 100)))))
  = Some 100.
Proof.
  intros tp tk. split; [|split; [|split; reflexivity]].
  - apply map_ext_in. intros n Hn. apply in_seq in Hn.
    destruct n as [|i]; [lia|].
    rewrite (time_pulse_firing_deadline t0 P (length delays) i).
    + unfold TimePulse.deadline. do 3 f_equal. lia.
    + apply (time_pulse_run_ticking t0 P delays 0), time_pulse_init_ticking.
    + lia.
  - assert (Hr : Ticker.running t0 P None (length delays) tk).
    { apply (ticker_run_unbounded t0 P delays 0).
      apply (ticker_init_running P t0 None). reflexivity. }
    destruct (ticker_firing_deadline _ _ _ _ _ Hr) as [H1 Hn].
    cbn [seq map]. rewrite H1. f_equal.
    apply map_ext_in. intros n Hin. apply in_seq in Hin.
    destruct n as [|[|i]]; [lia|lia|].
    rewrite Hn by lia. do 2 f_equal. lia.
Qed.

Lemma ticker_run_count (T P : Z) (k : nat) (delays : list nat) :
  forall (n : nat) (s : Ticker.t * Loop.t),
  Ticker.running T P (Some (Z.of_nat k)) n s -> (n <= k)%nat ->
  Ticker.firings (run Ticker._tick delays s)
  = Nat.min (S n + length delays) (S k) /\
  Ticker.is_done (fst (run Ticker._tick delays s)) = (k - n <? length delays)%nat.
Proof.
  induction delays as [|d ds IH]; intros n s Hs Hn.
  - cbn [run fold_left length]. destruct Hs as (Hd & _ & _ & _ & _ & _ & _ & _ & Hlog).
    split; [|exact Hd]. unfold Ticker.firings.
    rewrite <- (length_map snd), Hlog. cbn. rewrite length_map, length_seq. lia.
  - cbn [run fold_left length].
    assert (He : Ticker.count_exceeded (fst s) = (k <? S n)%nat).
    { destruct Hs as (_ & _ & _ & Hc & Hit & _). unfold Ticker.count_exceeded.
      rewrite Hc, Hit, Z.gtb_ltb.
      destruct (Z.ltb_spec (Z.of_nat k) (Z.of_nat (S n))), (Nat.ltb_spec k (S n));
        try reflexivity; lia. }
    destruct (Nat.ltb_spec k (S n)) as [Hk|Hk].
    + pose proof (ticker_run_once_stops T P _ n d s Hs He) as Hf.
      fold (run Ticker._tick ds (run_once Ticker._tick d s)).
      rewrite (ticker_run_finished (S n)) by exact Hf.
      destruct Hf as (Hd & _ & Hm). rewrite Hd, Hm. split; [lia|].
      symmetry. apply Nat.ltb_lt. lia.
    + pose proof (ticker_run_once_fires T P _ n d s Hs He) as Hr.
      fold (run Ticker._tick ds (run_once Ticker._tick d s)).
      destruct (IH (S n) _ Hr) as [Hm Hd]; [lia|]. rewrite Hm, Hd. split; [lia|].
      destruct (Nat.ltb_spec (k - S n) (length ds)), (Nat.ltb_spec (k - n) (S (length ds)));
        try reflexivity; lia.
Qed.

(** C2, on the code.  A ticker made with [count = k] fires once inside
    [start] and once in each of the next [k] timer calls, [k + 1] times in
    all, and it is the timer call after those that sets it done: after
    [m] timer calls it has fired [min (m + 1) (k + 1)] times, and it is
    done, with [wait_done] returning, exactly when [m > k].  With
    [count = 1] it fires twice. *)
Theorem ticker_with_count_fires_once_more (P t0 : Z) (k : nat) (delays : list nat) :
  let s := run Ticker._tick delays
             (snd (Ticker.__init__ P (Some (Z.of_nat k)) true (Loop.new t0))) in
  Ticker.firings s = Nat.min (S (length delays)) (S k) /\
  Ticker.is_done (fst s) = (k <? length delays)%nat /\
  Ticker.wait_done_returns (fst s) = (k <? length delays)%nat /\
  Ticker.firings
    (run Ticker._tick [0; 0; 0; 0]%nat
       (snd (Ticker.__init__ 10 (Some 1) true (Loop.new 100)))) = 2%nat.
Proof.
  intros s.
  destruct (ticker_init_running P t0 (Some (Z.of_nat k))) as [_ Hr].
  { apply Z.leb_le. lia. }
  destruct (ticker_run_count t0 P k delays 0 _ Hr) as [Hm Hd]; [lia|].
  fold s in Hm, Hd. rewrite Nat.sub_0_r in Hd.
  split; [exact Hm|]. split; [exact Hd|]. split; [|reflexivity].
  rewrite <- Hd. unfold Ticker.wait_done_returns, Ticker.is_done, Event.is_set,
    Event.wait_begin.
  destruct (Event._value (Ticker._done_event (fst s))); reflexivity.
Qed.

Lemma event_set_set (e : Event.t) : Event.set (Event.set e) = Event.set e.
Proof. unfold Event.set. destruct (Event._value e) eqn:E; cbn; rewrite ?E; reflexivity. Qed.

(** [stop] is idempotent in every state. *)
Lemma stop_idempotent (s : Ticker.t * Loop.t) :
  Ticker.stop (snd (Ticker.stop s)) = (Ret tt, snd (Ticker.stop s)).
Proof.
  destruct s as [k l]. rewrite (stop_eq k l).
  destruct (Ticker._tick_handle k) as [h|] eqn:Hh; cbn [snd].
  - rewrite stop_eq. cbn [Ticker.with_done_event Ticker._tick_handle Ticker._done_event].
    rewrite Hh, event_set_set.
    destruct (timers l !! h) as [hd|] eqn:Hhd.
    + cbn [timers with_timers].
      rewrite list_lookup_insert_eq by (eapply lookup_lt_Some, Hhd).
      cbn. rewrite list_insert_insert_eq. reflexivity.
    + rewrite Hhd. reflexivity.
  - rewrite stop_eq, Hh. reflexivity.
Qed.

(** On a ticker that is running, [stop] cancels the pending timer and
    sets the ticker done. *)
Lemma stop_running (T P : Z) (count : option Z) (n : nat) (s : Ticker.t * Loop.t) :
  Ticker.running T P count n s ->
  Ticker.is_done (fst (snd (Ticker.stop s))) = true /\
  Ticker.wait_done_returns (fst (snd (Ticker.stop s))) = true /\
  next_timer (snd (snd (Ticker.stop s))) = None.
Proof.
  destruct s as [k l].
  intros (Hd & _ & _ & _ & _ & _ & Hh & Hts & _). cbn [fst snd] in *.
  rewrite stop_eq, Hh, Hts.
  rewrite lookup_last by (rewrite length_map, length_seq; reflexivity).
  cbn [fst snd _when _called].
  rewrite mark_last by (rewrite length_map, length_seq; reflexivity).
  unfold Ticker.is_done, Ticker.wait_done_returns, Event.wait_begin, Event.is_set,
    Event.set in *. cbn. rewrite Hd. cbn. repeat split.
  rewrite earliest_skip by apply called_not_due. reflexivity.
Qed.

(** C7 at the failing inputs.  On a ticker made with [start=False] and
    not started since, [stop] changes nothing: the ticker is not done and
    [wait_done] does not return. *)
Theorem stop_ignores_an_unstarted_ticker (P : Z) (count : option Z) (l : Loop.t) :
  let r := Ticker.__init__ P count false l in
  fst r = Ret tt /\
  Ticker.stop (snd r) = (Ret tt, snd r) /\
  Ticker.is_done (fst (snd (Ticker.stop (snd r)))) = false /\
  Ticker.wait_done_returns (fst (snd (Ticker.stop (snd r)))) = false.
Proof. cbv zeta. repeat split; reflexivity. Qed.

End TimerFacts.

(** ** The latch *)

Section SwitchFacts.

Import Switch.

Lemma event_for_with_event (b x : bool) (e : Event.t) (s : Switch.t) :
  event_for x (with_event b e s) = if Bool.eqb x b then e else event_for x s.
Proof. destruct b, x; reflexivity. Qed.

Lemma state_with_event (b : bool) (e : Event.t) (s : Switch.t) :
  _state (with_event b e s) = _state s.
Proof. destruct b; reflexivity. Qed.

Lemma undisturbed_refl (tid : nat) (s : Switch.t) : undisturbed tid s s.
Proof. repeat split; auto. Qed.

Lemma undisturbed_trans (tid : nat) (s1 s2 s3 : Switch.t) :
  undisturbed tid s1 s2 -> undisturbed tid s2 s3 -> undisturbed tid s1 s3.
Proof.
  intros (Hs & Hv & Hp) (Hs' & Hv' & Hp'). repeat split.
  - congruence.
  - intros b. rewrite Hv'. apply Hv.
  - intros b H. apply Hp', Hp, H.
Qed.

(** Replacing an event by one with the same flag whose waiters are the
    old ones with pending futures added or futures removed. *)
Lemma undisturbed_with_event (tid : nat) (b : bool) (e : Event.t) (s : Switch.t) :
  Event._value e = Event._value (event_for b s) ->
  (pending_in tid (event_for b s) -> pending_in tid e) ->
  undisturbed tid s (with_event b e s).
Proof.
  intros Hv Hp. split; [apply state_with_event|]. split.
  - intros x. rewrite event_for_with_event.
    destruct (Bool.eqb_spec x b) as [->|]; [exact Hv | reflexivity].
  - intros x. rewrite event_for_with_event.
    destruct (Bool.eqb_spec x b) as [->|]; [exact Hp | auto].
Qed.

(** [run_waits] returns, or suspends after appending one pending
    future. *)
Lemma run_waits_cases (tid : nat) (todo : list bool) (s : Switch.t) :
  run_waits tid todo s = (Returned, s) \/
  exists b rest,
    run_waits tid todo s
    = (Suspended b rest,
       with_event b
         (Event.mk (Event._value (event_for b s))
            (Event._waiters (event_for b s) ++ [(tid, false)])) s).
Proof.
  induction todo as [|b rest IH]; [left; reflexivity|].
  cbn [run_waits]. destruct (Bool.eqb (_state s) b); [exact IH|].
  unfold Event.wait_begin. destruct (Event._value (event_for b s)) eqn:E; [exact IH|].
  right. exists b, rest. rewrite E. reflexivity.
Qed.

Lemma pending_in_app (tid tid' : nat) (v : bool) (ws : list (nat * bool)) :
  pending_in tid (Event.mk v ws) ->
  pending_in tid (Event.mk v (ws ++ [(tid', false)])).
Proof.
  intros H d Hd. cbn in *. apply elem_of_app in Hd as [Hd|Hd]; [apply H, Hd|].
  apply list_elem_of_singleton in Hd. congruence.
Qed.

Lemma run_waits_undisturbed (tid tid' : nat) (todo : list bool) (s : Switch.t) :
  undisturbed tid s (snd (run_waits tid' todo s)).
Proof.
  destruct (run_waits_cases tid' todo s) as [->|(b & rest & ->)];
    [apply undisturbed_refl|].
  cbn [snd]. apply undisturbed_with_event; [reflexivity|].
  intros H. apply pending_in_app. destruct (event_for b s). exact H.
Qed.

Lemma resume_undisturbed (tid tid' : nat) (k : task) (s : Switch.t) :
  undisturbed tid s (snd (resume tid' k s)).
Proof.
  destruct k as [b rest|]; [|apply undisturbed_refl]. cbn [resume].
  unfold Event.wait_resume. destruct (Event.fut_done tid' (event_for b s));
    [|apply undisturbed_refl].
  eapply undisturbed_trans; [|apply run_waits_undisturbed].
  apply undisturbed_with_event; [reflexivity|].
  intros H d Hd. cbn in Hd. apply list_elem_of_filter in Hd as [_ Hd]. apply H, Hd.
Qed.

Lemma undisturbed_flags_sound (tid : nat) (s s' : Switch.t) :
  undisturbed tid s s' -> flags_sound s -> flags_sound s'.
Proof.
  intros (Hs & Hv & _) H b Hb. rewrite Hs. apply H. rewrite <- Hv. exact Hb.
Qed.

Lemma run_waits_ids (tid : nat) (todo : list bool) (s : Switch.t)
    (x : bool) (t : nat) (d : bool) :
  (t, d) ∈ Event._waiters (event_for x (snd (run_waits tid todo s))) ->
  t = tid \/ (t, d) ∈ Event._waiters (event_for x s).
Proof.
  destruct (run_waits_cases tid todo s) as [->|(b & rest & ->)]; [auto|].
  cbn [snd]. rewrite event_for_with_event.
  destruct (Bool.eqb_spec x b) as [->|]; [|auto].
  cbn. intros H. apply elem_of_app in H as [H|H]; [auto|].
  apply list_elem_of_singleton in H. left. congruence.
Qed.

Lemma resume_ids (tid : nat) (k : task) (s : Switch.t)
    (x : bool) (t : nat) (d : bool) :
  (t, d) ∈ Event._waiters (event_for x (snd (resume tid k s))) ->
  t = tid \/ (t, d) ∈ Event._waiters (event_for x s).
Proof.
  destruct k as [b rest|]; [|auto]. cbn [resume].
  unfold Event.wait_resume. destruct (Event.fut_done tid (event_for b s)); [|auto].
  intros H. apply run_waits_ids in H as [H|H]; [auto|]. right.
  rewrite event_for_with_event in H.
  destruct (Bool.eqb_spec x b) as [->|]; [|exact H].
  cbn in H. apply list_elem_of_filter in H as [_ H]. exact H.
Qed.

Lemma set_state_ids (x y : bool) (s : Switch.t) (t : nat) (d : bool) :
  (t, d) ∈ Event._waiters (event_for y (set_state x s)) ->
  exists d', (t, d') ∈ Event._waiters (event_for y s).
Proof.
  destruct s as [[von won] [voff woff] st].
  destruct x, y, st, von, voff; cbn; intros H; eauto;
    apply list_elem_of_fmap in H as ([t' d'] & E & H); cbn in E;
    injection E as -> ->; eauto.
Qed.

Lemma set_state_flags_sound (x : bool) (s : Switch.t) :
  flags_sound s -> flags_sound (set_state x s).
Proof.
  destruct s as [[von won] [voff woff] st]. intros H.
  pose proof (H true) as Ht. pose proof (H false) as Hf. cbn in Ht, Hf.
  destruct x, st, von, voff; intros [|]; cbn; intros E;
    try reflexivity; try discriminate E; auto.
Qed.

Lemma init_sound (b0 : bool) : sound (mkWorld (Switch.__init__ b0) []).
Proof.
  split.
  - destruct b0; intros [|]; cbn; discriminate.
  - destruct b0; intros [|] tid d; cbn; intros H; inversion H.
Qed.

Lemma act_sound (a : action) (w : world) : sound w -> sound (act a w).
Proof.
  destruct w as [s ks]. intros [Hf Hk]. unfold waiters_known in Hk. cbn in Hf, Hk.
  assert (Hset : forall x, sound (mkWorld (set_state x s) ks)).
  { intros x. split; cbn; [apply set_state_flags_sound, Hf|].
    intros b tid d H. cbn [tasks switch] in *.
    apply set_state_ids in H as [d' H]. eapply Hk, H. }
  destruct a as [| |x|co|tid].
  - apply (Hset true).
  - apply (Hset false).
  - apply (Hset x).
  - split; cbn.
    + eapply undisturbed_flags_sound; [apply (run_waits_undisturbed 0)|exact Hf].
    + intros b tid d H. cbn [tasks switch] in *. rewrite length_app. cbn.
      apply run_waits_ids in H as [->|H]; [lia|]. apply Hk in H. lia.
  - cbn. destruct (ks !! tid) as [k|] eqn:Ek; [|split; assumption].
    split; cbn.
    + eapply undisturbed_flags_sound; [apply (resume_undisturbed 0)|exact Hf].
    + intros b t d H. cbn [tasks switch] in *. rewrite length_insert.
      apply resume_ids in H as [->|H]; [eapply lookup_lt_Some, Ek|].
      eapply Hk, H.
Qed.

Lemma acts_sound (l : list action) : forall w, sound w -> sound (acts l w).
Proof.
  induction l as [|a l IH]; intros w Hw; [exact Hw|].
  cbn. apply IH, act_sound, Hw.
Qed.

Lemma fut_done_pending (tid : nat) (e : Event.t) :
  pending_in tid e -> Event.fut_done tid e = false.
Proof.
  intros H. unfold Event.fut_done.
  destruct (existsb _ _) eqn:E; [|reflexivity].
  apply existsb_exists in E as ([t d] & Hin & Ht). cbn in Ht.
  apply andb_true_iff in Ht as [Ht Hd]. apply Nat.eqb_eq in Ht. subst t d.
  apply list_elem_of_In, H in Hin. discriminate Hin.
Qed.

(** Called on a sound switch, [wait_toggle_to b] suspends: in its first
    wait when the switch is in state [b], in its second otherwise. *)
Lemma wait_toggle_to_suspends (tid : nat) (b : bool) (s : Switch.t) :
  flags_sound s ->
  fst (run_waits tid (wait_toggle_to b) s)
  = if Bool.eqb (_state s) b then Suspended (negb b) [b] else Suspended b [].
Proof.
  destruct s as [[von won] [voff woff] st]. intros H.
  pose proof (H true) as Ht. pose proof (H false) as Hf. cbn in Ht, Hf.
  destruct b, st, von, voff; cbn; try reflexivity;
    try (discriminate Ht; reflexivity); try (discriminate Hf; reflexivity).
Qed.

Lemma call_awaiting_toggle (b : bool) (w : world) :
  sound w ->
  awaiting_toggle b (length (tasks w)) (act (Call (wait_toggle_to b)) w).
Proof.
  destruct w as [s ks]. intros [Hf Hk]. cbn [act tasks switch].
  assert (Hp : forall x, pending_in (length ks) (event_for x s)).
  { intros x d H. apply Hk in H. cbn in H. lia. }
  destruct (run_waits_undisturbed (length ks) (length ks) (wait_toggle_to b) s)
    as (Hs & Hv & Hp').
  pose proof (wait_toggle_to_suspends (length ks) b s Hf) as Hk'.
  split; [|split]; cbn [tasks switch].
  - eapply undisturbed_flags_sound; [|exact Hf]. repeat split; eauto.
  - apply Hp', Hp.
  - rewrite lookup_app_r by lia. rewrite Nat.sub_diag. cbn [lookup list_lookup].
    rewrite Hk', Hs. destruct (Bool.eqb_spec (_state s) b) as [E|E].
    + left. split; [reflexivity|]. intros _. apply Hp', Hp.
    + right. split; [reflexivity|]. destruct (_state s), b; cbn; congruence.
Qed.

Lemma awaiting_toggle_not_returned (b : bool) (tid : nat) (w : world) :
  awaiting_toggle b tid w -> has_returned tid w = false.
Proof.
  intros (_ & _ & [[H _]|[H _]]); unfold has_returned; rewrite H; reflexivity.
Qed.

(** A change of state either is the toggle awaited or leaves the task
    waiting for it. *)
Lemma set_state_awaiting_toggle (b x : bool) (tid : nat) (s : Switch.t)
    (ks : list task) :
  awaiting_toggle b tid (mkWorld s ks) ->
  negb (Bool.eqb (is_set s) b) && Bool.eqb (is_set (set_state x s)) b = true \/
  awaiting_toggle b tid (mkWorld (set_state x s) ks).
Proof.
  intros (Hf & Hp & Hk). cbn [switch tasks] in *.
  destruct (Bool.eqb_spec (_state s) x) as [E|E].
  - right. replace (set_state x s) with s;
      [repeat split; assumption|].
    destruct s as [on off st]. cbn in E. subst st. destruct x; reflexivity.
  - destruct (Bool.eqb_spec x b) as [->|Exb].
    + left. destruct s as [on off st]. cbn in *. destruct st, b; try congruence; reflexivity.
    + right. assert (Hst : _state s = b) by (destruct (_state s), x, b; congruence).
      assert (Hst' : _state (set_state x s) = negb b).
      { destruct s as [on off st]. cbn in *. destruct st, x, b; try congruence; reflexivity. }
      split; [apply set_state_flags_sound, Hf|]. split.
      * destruct s as [[von won] [voff woff] st]. cbn in *.
        destruct st, x, b; try congruence; exact Hp.
      * destruct Hk as [[Ht _]|[_ Hs]];
          [|rewrite Hst in Hs; destruct b; discriminate Hs].
        left. split; [exact Ht|]. cbn [switch]. intros Hb. rewrite Hst' in Hb.
        destruct b; discriminate Hb.
Qed.

Lemma other_task_awaiting_toggle (b : bool) (tid : nat) (s s' : Switch.t)
    (ks ks' : list task) :
  awaiting_toggle b tid (mkWorld s ks) ->
  undisturbed tid s s' -> ks' !! tid = ks !! tid ->
  awaiting_toggle b tid (mkWorld s' ks').
Proof.
  intros (Hf & Hp & Hk) Hu Hks. pose proof Hu as (Hs & Hv & Hp').
  cbn [switch tasks] in *. split; [|split]; cbn [switch tasks].
  - eapply undisturbed_flags_sound; eassumption.
  - apply Hp', Hp.
  - rewrite Hks, Hs. destruct Hk as [[Ht Hq]|[Ht Hq]]; [left|right]; split; auto.
Qed.

Lemma run_waits_one (tid : nat) (b : bool) (s : Switch.t) :
  _state s = negb b -> Event._value (event_for b s) = false ->
  fst (run_waits tid [b] s) = Suspended b [].
Proof.
  intros Hs Hv. cbn [run_waits]. rewrite Hs. unfold Event.wait_begin. rewrite Hv.
  destruct b; reflexivity.
Qed.

Lemma resume_self_awaiting_toggle (b : bool) (tid : nat) (s : Switch.t)
    (ks : list task) (k : task) :
  awaiting_toggle b tid (mkWorld s ks) -> ks !! tid = Some k ->
  awaiting_toggle b tid
    (mkWorld (snd (resume tid k s)) (<[tid := fst (resume tid k s)]> ks)).
Proof.
  intros Hw Hk. pose proof Hw as (Hf & Hp & Hd). cbn [switch tasks] in *.
  assert (Hlt : (tid < length ks)%nat) by (eapply lookup_lt_Some, Hk).
  destruct Hd as [[Ht Hq]|[Ht Hq]]; rewrite Hk in Ht; injection Ht as ->.
  - cbn [resume]. unfold Event.wait_resume.
    destruct (Event.fut_done tid (event_for (negb b) s)) eqn:Ed.
    + assert (Hs : _state s = negb b).
      { destruct (Bool.eqb_spec (_state s) b) as [E|E].
        - rewrite (fut_done_pending _ _ (Hq E)) in Ed. discriminate Ed.
        - destruct (_state s), b; cbn; congruence. }
      set (e := Event.mk _ _).
      pose proof (resume_undisturbed tid tid (Suspended (negb b) [b]) s) as Hu.
      cbn [resume] in Hu. unfold Event.wait_resume in Hu. rewrite Ed in Hu.
      fold e in Hu. pose proof Hu as (Hs' & Hv' & Hp').
      split; [|split]; cbn [switch tasks].
      * eapply undisturbed_flags_sound; eassumption.
      * apply Hp', Hp.
      * right. rewrite list_lookup_insert_eq by exact Hlt. rewrite Hs', Hs.
        split; [|reflexivity]. f_equal. apply run_waits_one.
        -- rewrite state_with_event. exact Hs.
        -- rewrite event_for_with_event.
           replace (Bool.eqb b (negb b)) with false by (destruct b; reflexivity).
           destruct (Event._value (event_for b s)) eqn:Ev; [|reflexivity].
           apply Hf in Ev. rewrite Hs in Ev. destruct b; discriminate Ev.
    + cbn [fst snd]. rewrite list_insert_id by exact Hk. exact Hw.
  - cbn [resume]. unfold Event.wait_resume.
    rewrite (fut_done_pending _ _ Hp). cbn [fst snd].
    rewrite list_insert_id by exact Hk. exact Hw.
Qed.

Lemma act_awaiting_toggle (b : bool) (tid : nat) (a : action) (w : world) :
  awaiting_toggle b tid w ->
  negb (Bool.eqb (is_set (switch w)) b)
  && Bool.eqb (is_set (switch (act a w))) b = true \/
  awaiting_toggle b tid (act a w).
Proof.
  destruct w as [s ks]. intros Hw.
  assert (Hlt : (tid < length ks)%nat).
  { destruct Hw as (_ & _ & [[H _]|[H _]]); eapply lookup_lt_Some, H. }
  destruct a as [| |x|co|t]; cbn [act switch tasks].
  - apply (set_state_awaiting_toggle b true), Hw.
  - apply (set_state_awaiting_toggle b false), Hw.
  - apply (set_state_awaiting_toggle b x), Hw.
  - right. eapply other_task_awaiting_toggle; [exact Hw| |].
    + apply run_waits_undisturbed.
    + apply lookup_app_l, Hlt.
  - right. destruct (ks !! t) as [k|] eqn:Ek; [|exact Hw].
    destruct (Nat.eq_dec t tid) as [->|Hne].
    + apply resume_self_awaiting_toggle; assumption.
    + eapply other_task_awaiting_toggle; [exact Hw| |].
      * apply resume_undisturbed.
      * apply list_lookup_insert_ne, Hne.
Qed.

Lemma returns_after_toggle (b : bool) (tid : nat) (l : list action) :
  forall w : world,
  awaiting_toggle b tid w ->
  has_returned tid (acts l w) = true -> toggles_to b l w = true.
Proof.
  induction l as [|a l IH]; intros w Hw Hr.
  - cbn in Hr. rewrite (awaiting_toggle_not_returned b tid w Hw) in Hr.
    discriminate Hr.
  - cbn [toggles_to]. apply orb_true_iff.
    destruct (act_awaiting_toggle b tid a w Hw) as [H|H]; [left; exact H|].
    right. apply IH; assumption.
Qed.

(** C9: called on a switch in any state it can have reached,
    [wait_toggle_to b] suspends, whatever the state of the switch; and if
    it has returned after some further actions of the program and turns of
    the loop, then in the course of these the switch went from the state
    opposite to [b] into [b]. *)
Theorem wait_toggle_to_awaits_a_toggle (b0 b : bool) (before after : list action) :
  let w := acts before (mkWorld (Switch.__init__ b0) []) in
  let tid := length (tasks w) in
  let w1 := act (Call (wait_toggle_to b)) w in
  has_returned tid w1 = false /\
  (has_returned tid (acts after w1) = true -> toggles_to b after w1 = true).
Proof.
  intros w tid w1.
  assert (Hw : awaiting_toggle b tid w1).
  { apply call_awaiting_toggle, acts_sound, init_sound. }
  split.
  - apply (awaiting_toggle_not_returned b), Hw.
  - apply returns_after_toggle, Hw.
Qed.

Lemma wait_toggle_to_awaits_a_toggle_witness :
  has_returned 0
    (acts [DoClear; Resume 0; DoSet; Resume 0]
       (act (Call (wait_toggle_to true)) (mkWorld (Switch.__init__ true) [])))
  = true /\
  toggles_to true [DoClear; Resume 0; DoSet; Resume 0]
    (act (Call (wait_toggle_to true)) (mkWorld (Switch.__init__ true) []))
  = true.
Proof.
  split; [reflexivity|].
  apply (proj2 (wait_toggle_to_awaits_a_toggle true true []
                  [DoClear; Resume 0; DoSet; Resume 0])).
  reflexivity.
Defined.

End SwitchFacts.

(** ** The bounded counter, further properties *)

Section CounterRuns.

Import EventfulCounter.

Ltac unfold_counter' :=
  unfold apply, inc, dec, set_min_value, set_max_value, set,
    enter_max, leave_min, enter_min, leave_max,
    gt_bound, lt_bound, bind, ret, raise, get, modify, when,
    with_counter, with_min_value, with_max_value, on_min_ev, on_max_ev,
    latches_agree, latches_have_bounds, within_bounds, bounds_apart, bounds_ordered,
    at_min, at_max, min_is_set, max_is_set, is_bound_assignment,
    Switch.set_state, Switch.set, Switch.clear, Switch.is_set in *.

Ltac split_compare' :=
  match goal with
  | |- context [Z.leb ?a ?b] => destruct (Z.leb_spec a b)
  | |- context [Z.ltb ?a ?b] => destruct (Z.ltb_spec a b)
  | H : context [Z.leb ?a ?b] |- _ => destruct (Z.leb_spec a b)
  | H : context [Z.ltb ?a ?b] |- _ => destruct (Z.ltb_spec a b)
  end.

Ltac crush_counter' :=
  repeat (unfold_counter'; cbn in *; rewrite ?Z.geb_leb, ?Z.gtb_ltb in *;
          try split_compare');
  cbn in *; try discriminate; try lia; try tauto; try reflexivity.

(** [set] only writes the value and the latches. *)
Lemma set_keeps_configuration (v : Z) (c : t) :
  _min_value (snd (set v c)) = _min_value c /\
  _max_value (snd (set v c)) = _max_value c /\
  _clamp_to_bounds (snd (set v c)) = _clamp_to_bounds c.
Proof.
  destruct c as [x mx mn cl [mon moff ms] [xon xoff xs]].
  destruct mx as [mx|], mn as [mn|], cl, ms, xs;
    (split; [|split]); crush_counter'.
Qed.

Lemma apply_keeps_clamp (m : mutation) (c : t) :
  _clamp_to_bounds (snd (apply m c)) = _clamp_to_bounds c.
Proof.
  destruct m as [v|d|d|[b|]|[b|]]; cbn [apply].
  - apply set_keeps_configuration.
  - unfold inc, bind, get. apply set_keeps_configuration.
  - unfold dec, bind, get. apply set_keeps_configuration.
  - unfold set_min_value, bind, get.
    destruct (match _max_value c with Some mx => b >? mx | None => false end);
      [reflexivity|].
    cbn -[set]. apply (set_keeps_configuration (_counter c) (with_min_value (Some b) c)).
  - reflexivity.
  - unfold set_max_value, bind, get.
    destruct (match _min_value c with Some mn => b <? mn | None => false end);
      [reflexivity|].
    cbn -[set]. apply (set_keeps_configuration (_counter c) (with_max_value (Some b) c)).
  - reflexivity.
Qed.

Lemma set_outcome (v : Z) (c : t) :
  latches_have_bounds c = true ->
  fst (set v c) = Ret tt /\ latches_have_bounds (snd (set v c)) = true.
Proof.
  destruct c as [x mx mn cl [mon moff ms] [xon xoff xs]].
  destruct mx as [mx|], mn as [mn|], cl, ms, xs;
    intros Hc; cbn in Hc; try discriminate Hc; clear Hc;
    split; crush_counter'.
Qed.

Lemma with_bound_have_bounds (c : t) (b : Z) :
  latches_have_bounds c = true ->
  latches_have_bounds (with_min_value (Some b) c) = true /\
  latches_have_bounds (with_max_value (Some b) c) = true.
Proof.
  destruct c as [x mx mn cl [mon moff ms] [xon xoff xs]].
  destruct mx, mn, ms, xs; cbn; intros H; try discriminate H; split; reflexivity.
Qed.

(** Where every latch that is up has its bound, a mutation ends normally
    or, if it assigns a bound that would cross the other one, with
    [ValueError] and no change; and it leaves no latch up without its
    bound. *)
Lemma apply_outcome (m : mutation) (c : t) :
  latches_have_bounds c = true ->
  latches_have_bounds (snd (apply m c)) = true /\
  (fst (apply m c) = Ret tt \/
   (is_bound_assignment m = true /\ fst (apply m c) = Raise ValueError /\
    snd (apply m c) = c)).
Proof.
  intros Hc. destruct m as [v|d|d|[b|]|[b|]]; cbn [apply].
  - destruct (set_outcome v c Hc). auto.
  - unfold inc, bind, get. destruct (set_outcome (_counter c + d) c Hc). auto.
  - unfold dec, bind, get. destruct (set_outcome (_counter c - d) c Hc). auto.
  - unfold set_min_value, bind, get.
    destruct (match _max_value c with Some mx => b >? mx | None => false end).
    + cbn. auto.
    + cbn -[set].
      destruct (set_outcome (_counter c) (with_min_value (Some b) c)); [|auto].
      apply with_bound_have_bounds, Hc.
  - split; [|left; reflexivity].
    destruct c as [x mx mn cl [mon moff ms] [xon xoff xs]].
    destruct mx, mn, ms, xs; cbn in *; congruence.
  - unfold set_max_value, bind, get.
    destruct (match _min_value c with Some mn => b <? mn | None => false end).
    + cbn. auto.
    + cbn -[set].
      destruct (set_outcome (_counter c) (with_max_value (Some b) c)); [|auto].
      apply with_bound_have_bounds, Hc.
  - split; [|left; reflexivity].
    destruct c as [x mx mn cl [mon moff ms] [xon xoff xs]].
    destruct mx, mn, ms, xs; cbn in *; congruence.
Qed.

Lemma init_outcome (v : Z) (mx mn : option Z) (cl : bool) :
  fst (__init__ v mx mn cl) = Ret tt /\
  latches_have_bounds (snd (__init__ v mx mn cl)) = true /\
  _clamp_to_bounds (snd (__init__ v mx mn cl)) = cl.
Proof.
  unfold __init__. destruct mx as [mx|], mn as [mn|], cl;
    (split; [|split]); crush_counter'.
Qed.

Lemma mutate_outcomes (ms : list mutation) : forall c : t,
  latches_have_bounds c = true ->
  Forall2 (fun m o => o = Ret tt \/ (is_bound_assignment m = true /\ o = Raise ValueError))
    ms (fst (mutate ms c)).
Proof.
  induction ms as [|m ms IH]; intros c Hc; cbn; [constructor|].
  destruct (apply_outcome m c Hc) as [Hc' Ho]. constructor.
  - destruct Ho as [Ho|(Hm & Ho & _)]; auto.
  - apply IH, Hc'.
Qed.

(** A counter never fails in a comparison: the constructor ends normally
    and, whatever is done with the counter afterwards, a mutation ends
    normally, unless it is the assignment of a bound, which may raise
    [ValueError]; [set], [inc] and [dec] never raise. *)
Theorem mutations_raise_value_error_only
    (v : Z) (mx mn : option Z) (cl : bool) (ms : list mutation) :
  fst (__init__ v mx mn cl) = Ret tt /\
  Forall2 (fun m o => o = Ret tt \/ (is_bound_assignment m = true /\ o = Raise ValueError))
    ms (fst (mutate ms (snd (__init__ v mx mn cl)))).
Proof.
  destruct (init_outcome v mx mn cl) as (Ho & Hb & _).
  split; [exact Ho|]. apply mutate_outcomes, Hb.
Qed.

Lemma mutate_unclamped (ms : list mutation) : forall c : t,
  _clamp_to_bounds c = false -> latches_agree c = true ->
  latches_agree (snd (mutate ms c)) = true.
Proof.
  induction ms as [|m ms IH]; intros c Hcl Hc; [exact Hc|].
  cbn. apply IH.
  - rewrite apply_keeps_clamp. exact Hcl.
  - destruct (apply_latches_agree m c Hc) as [[_ ->]|[_ H]]; [exact Hc|].
    apply H. left. exact Hcl.
Qed.

(** For a counter used with integers (initial value, bounds and every
    argument a Python [int]): without clamping, at construction and after
    every mutation, the min latch is up exactly when a minimum is set and
    the value is at or below it, and the max latch exactly when a maximum
    is set and the value is at or above it. *)
Theorem unclamped_latches_always_agree
    (v : Z) (mx mn : option Z) (ms : list mutation) :
  latches_agree (snd (mutate ms (snd (__init__ v mx mn false)))) = true.
Proof.
  destruct (init_outcome v mx mn false) as (_ & _ & Hcl).
  destruct (init_latches_agree v mx mn false) as [_ H].
  apply mutate_unclamped; [exact Hcl|]. apply H. left. reflexivity.
Qed.

Lemma set_within_bounds (v : Z) (c : t) :
  latches_have_bounds c = true -> _clamp_to_bounds c = true ->
  bounds_ordered c = true ->
  within_bounds (snd (set v c)) = true /\ bounds_ordered (snd (set v c)) = true.
Proof.
  destruct c as [x mx mn cl [mon moff ms] [xon xoff xs]].
  destruct mx as [mx|], mn as [mn|], cl, ms, xs;
    intros Hc Hcl Ho; cbn in Hc, Hcl; try discriminate Hc; try discriminate Hcl;
    clear Hc Hcl; split; crush_counter'.
Qed.

Lemma apply_within_bounds (m : mutation) (c : t) :
  latches_have_bounds c = true -> _clamp_to_bounds c = true ->
  bounds_ordered c = true -> within_bounds c = true ->
  within_bounds (snd (apply m c)) = true /\ bounds_ordered (snd (apply m c)) = true.
Proof.
  intros Hc Hcl Ho Hw. destruct m as [v|d|d|[b|]|[b|]]; cbn [apply].
  - apply set_within_bounds; assumption.
  - unfold inc, bind, get. apply set_within_bounds; assumption.
  - unfold dec, bind, get. apply set_within_bounds; assumption.
  - unfold set_min_value, bind, get.
    destruct (match _max_value c with Some mx => b >? mx | None => false end) eqn:E;
      [cbn; auto|].
    cbn -[set]. apply set_within_bounds.
    + apply with_bound_have_bounds, Hc.
    + exact Hcl.
    + destruct c as [x mx mn cl le ge]. destruct mx as [mx|]; [|reflexivity].
      cbn in *. rewrite Z.gtb_ltb in E.
      destruct (Z.ltb_spec mx b), (Z.leb_spec b mx); try reflexivity;
        try discriminate E; lia.
  - destruct c as [x mx mn cl [mon moff ms] [xon xoff xs]].
    unfold within_bounds, bounds_ordered in *.
    destruct mx, mn, ms; cbn in *; rewrite ?andb_true_r in *; auto;
      apply andb_true_iff in Hw; tauto.
  - unfold set_max_value, bind, get.
    destruct (match _min_value c with Some mn => b <? mn | None => false end) eqn:E;
      [cbn; auto|].
    cbn -[set]. apply set_within_bounds.
    + apply with_bound_have_bounds, Hc.
    + exact Hcl.
    + destruct c as [x mx mn cl le ge]. destruct mn as [mn|]; [|reflexivity].
      cbn in *.
      destruct (Z.ltb_spec b mn), (Z.leb_spec mn b); try reflexivity;
        try discriminate E; lia.
  - destruct c as [x mx mn cl [mon moff ms] [xon xoff xs]].
    unfold within_bounds, bounds_ordered in *.
    destruct mx, mn, xs; cbn in *; rewrite ?andb_true_r in *; auto;
      apply andb_true_iff in Hw; tauto.
Qed.

Lemma mutate_within_bounds (ms : list mutation) : forall c : t,
  latches_have_bounds c = true -> _clamp_to_bounds c = true ->
  bounds_ordered c = true -> within_bounds c = true ->
  within_bounds (snd (mutate ms c)) = true /\
  bounds_ordered (snd (mutate ms c)) = true.
Proof.
  induction ms as [|m ms IH]; intros c Hc Hcl Ho Hw; [cbn; auto|].
  cbn. destruct (apply_within_bounds m c Hc Hcl Ho Hw) as [Hw' Ho'].
  apply IH; try assumption.
  - apply apply_outcome, Hc.
  - rewrite apply_keeps_clamp. exact Hcl.
Qed.

(** For a counter used with integers: with clamping, a counter
    constructed with [min <= max] keeps, after every mutation, [min <= max]
    and its value within the bounds that are set. *)
Theorem clamped_value_stays_within_bounds
    (v : Z) (mx mn : option Z) (ms : list mutation) :
  bounds_ordered (snd (__init__ v mx mn true)) = true ->
  within_bounds (snd (mutate ms (snd (__init__ v mx mn true)))) = true /\
  bounds_ordered (snd (mutate ms (snd (__init__ v mx mn true)))) = true.
Proof.
  intros Ho. destruct (init_outcome v mx mn true) as (_ & Hb & Hcl).
  apply mutate_within_bounds; try assumption.
  revert Ho. unfold __init__. intros Ho.
  apply set_within_bounds; try reflexivity.
  destruct (set_keeps_configuration v
              (mk v mx mn true (Switch.__init__ false) (Switch.__init__ false)))
    as (Hmn & Hmx & _).
  unfold bounds_ordered in *. rewrite Hmn, Hmx in Ho. exact Ho.
Qed.

Lemma clamped_value_stays_within_bounds_witness :
  within_bounds
    (snd (mutate [MSet 15; MInc 3; MSetMax (Some 4); MDec 20; MSetMin None]
            (snd (__init__ 7 (Some 10) (Some 0) true)))) = true.
Proof.
  apply (clamped_value_stays_within_bounds 7 (Some 10) (Some 0)
           [MSet 15; MInc 3; MSetMax (Some 4); MDec 20; MSetMin None]).
  reflexivity.
Defined.

(** Assigning the value just assigned changes nothing: the second [set]
    ends normally in the state the first one left, latches and events
    included. *)
Theorem set_twice_is_set_once (v : Z) (c : t) :
  latches_have_bounds c = true ->
  set v (snd (set v c)) = (Ret tt, snd (set v c)).
Proof.
  destruct c as [x mx mn cl [mon moff ms] [xon xoff xs]].
  destruct mx as [mx|], mn as [mn|], cl, ms, xs;
    intros Hc; cbn in Hc; try discriminate Hc; clear Hc; crush_counter'.
Qed.

Lemma set_twice_is_set_once_witness :
  set 15 (snd (set 15 (snd (__init__ 0 (Some 10) (Some 0) true))))
  = (Ret tt, snd (set 15 (snd (__init__ 0 (Some 10) (Some 0) true)))).
Proof.
  apply (set_twice_is_set_once 15 (snd (__init__ 0 (Some 10) (Some 0) true))).
  reflexivity.
Defined.

(** For a counter used with integers, on which [+] and [-] are exact:
    without clamping, [dec(by)] undoes [inc(by)]: both end normally and
    the value and the two latch states are back to what they were. *)
Theorem dec_undoes_inc (d : Z) (c : t) :
  _clamp_to_bounds c = false -> latches_agree c = true ->
  fst (inc d c) = Ret tt /\
  fst (dec d (snd (inc d c))) = Ret tt /\
  _counter (snd (dec d (snd (inc d c)))) = _counter c /\
  min_is_set (snd (dec d (snd (inc d c)))) = min_is_set c /\
  max_is_set (snd (dec d (snd (inc d c)))) = max_is_set c.
Proof.
  destruct c as [x mx mn cl [mon moff ms] [xon xoff xs]].
  destruct mx as [mx|], mn as [mn|], cl, ms, xs;
    intros Hcl Hc; cbn in Hcl; try discriminate Hcl; clear Hcl;
    (split; [|split; [|split; [|split]]]); crush_counter'.
Qed.

Lemma dec_undoes_inc_witness :
  _counter (snd (dec 7 (snd (inc 7 (snd (__init__ 5 (Some 10) (Some 0) false))))))
  = _counter (snd (__init__ 5 (Some 10) (Some 0) false)) /\
  max_is_set (snd (dec 7 (snd (inc 7 (snd (__init__ 5 (Some 10) (Some 0) false))))))
  = max_is_set (snd (__init__ 5 (Some 10) (Some 0) false)).
Proof.
  pose proof (dec_undoes_inc 7 (snd (__init__ 5 (Some 10) (Some 0) false))
                eq_refl eq_refl) as H.
  split; [apply H | apply H].
Defined.

Lemma value_mutation_keeps_bounds (m : mutation) (c : t) :
  is_bound_assignment m = false ->
  _min_value (snd (apply m c)) = _min_value c /\
  _max_value (snd (apply m c)) = _max_value c.
Proof.
  destruct m as [v|d|d|b|b]; intros H; try discriminate H; cbn [apply];
    unfold inc, dec, bind, get;
    match goal with
    | |- context [set ?v c] =>
        destruct (set_keeps_configuration v c) as (Hmn & Hmx & _); auto
    end.
Qed.

Lemma mutate_values_agree (ms : list mutation) : forall c : t,
  forallb (fun m => negb (is_bound_assignment m)) ms = true ->
  bounds_apart c = true -> latches_agree c = true ->
  latches_agree (snd (mutate ms c)) = true.
Proof.
  induction ms as [|m ms IH]; intros c Hms Ha Hc; [exact Hc|].
  cbn in Hms. apply andb_true_iff in Hms as [Hm Hms]. apply negb_true_iff in Hm.
  destruct (value_mutation_keeps_bounds m c Hm) as [Hmn Hmx].
  assert (Ha' : bounds_apart (snd (apply m c)) = true).
  { unfold bounds_apart in *. rewrite Hmn, Hmx. exact Ha. }
  cbn [mutate snd]. apply IH; [exact Hms|exact Ha'|].
  destruct (apply_latches_agree m c Hc) as [[_ ->]|[_ H]]; [exact Hc|].
  apply H. right. exact Ha'.
Qed.

(** For a counter used with integers: with or without clamping, when
    the bounds set at construction leave room between them ([min < max],
    or a bound absent), the latches agree with the value at construction
    and after every [set], [inc] and [dec]. *)
Theorem latches_agree_between_distinct_bounds
    (v : Z) (mx mn : option Z) (cl : bool) (ms : list mutation) :
  bounds_apart (snd (__init__ v mx mn cl)) = true ->
  forallb (fun m => negb (is_bound_assignment m)) ms = true ->
  latches_agree (snd (mutate ms (snd (__init__ v mx mn cl)))) = true.
Proof.
  intros Ha Hms. apply mutate_values_agree; [exact Hms|exact Ha|].
  apply (init_latches_agree v mx mn cl). right. exact Ha.
Qed.

Lemma latches_agree_between_distinct_bounds_witness :
  latches_agree
    (snd (mutate [MSet 15; MDec 30; MInc 4; MSet 10]
            (snd (__init__ 3 (Some 10) (Some 0) true)))) = true.
Proof.
  apply (latches_agree_between_distinct_bounds 3 (Some 10) (Some 0) true
           [MSet 15; MDec 30; MInc 4; MSet 10]); reflexivity.
Defined.




End CounterRuns.


(** ** The latch, further properties *)

Section SwitchWakeups.

Import Switch.

Lemma last_default_irrelevant (l : list bool) : forall a d d' : bool,
  List.last (a :: l) d = List.last (a :: l) d'.
Proof.
  induction l as [|x l IH]; intros a d d'; [reflexivity|].
  change (List.last (x :: l) d = List.last (x :: l) d'). apply IH.
Qed.

(** After any sequence of [set_state] calls the switch reads as the last
    state set, or as before if there was none, and [is_clear] is the
    opposite of [is_set]. *)
Theorem is_set_reads_last_state_set (states : list bool) (s : Switch.t) :
  is_set (set_states states s) = List.last states (is_set s) /\
  is_clear (set_states states s) = negb (List.last states (is_set s)).
Proof.
  assert (H : is_set (set_states states s) = List.last states (is_set s)).
  { revert s. induction states as [|b bs IH]; intros s; [reflexivity|].
    cbn [set_states fold_left]. fold (set_states bs (set_state b s)).
    rewrite IH. destruct bs as [|b' bs].
    - cbn. destruct s as [on off st]. destruct b, st; reflexivity.
    - change (List.last (b :: b' :: bs) (is_set s))
        with (List.last (b' :: bs) (is_set s)).
      apply last_default_irrelevant. }
  split; [exact H|]. unfold is_clear. rewrite <- H. reflexivity.
Qed.

Lemma set_state_keeps_done (b x : bool) (s : Switch.t) (tid : nat) :
  (tid, true) ∈ Event._waiters (event_for b s) ->
  (tid, true) ∈ Event._waiters (event_for b (set_state x s)).
Proof.
  destruct s as [[von won] [voff woff] st].
  destruct b, x, st, von, voff; cbn; intros H; try exact H;
    apply list_elem_of_fmap; exists (tid, true); auto.
Qed.

Lemma set_state_keeps_entry (b x : bool) (s : Switch.t) (tid : nat) (d : bool) :
  (tid, d) ∈ Event._waiters (event_for b s) ->
  exists d', (tid, d') ∈ Event._waiters (event_for b (set_state x s)).
Proof.
  destruct s as [[von won] [voff woff] st].
  destruct b, x, st, von, voff; cbn; intros H; eauto;
    exists true; apply list_elem_of_fmap; exists (tid, d); auto.
Qed.

Lemma set_state_marks (b : bool) (s : Switch.t) (tid : nat) (d : bool) :
  flags_sound s -> _state s = negb b ->
  (tid, d) ∈ Event._waiters (event_for b s) ->
  (tid, true) ∈ Event._waiters (event_for b (set_state b s)).
Proof.
  destruct s as [[von won] [voff woff] st]. intros Hf Hs H.
  pose proof (Hf true) as Ht. pose proof (Hf false) as Hf'. cbn in Ht, Hf', Hs.
  destruct b, st, von, voff; cbn in *; try discriminate Hs;
    try (discriminate Ht; reflexivity); try (discriminate Hf'; reflexivity);
    apply list_elem_of_fmap; exists (tid, d); auto.
Qed.

Lemma run_waits_keeps (tid' : nat) (todo : list bool) (s : Switch.t)
    (b : bool) (e : nat * bool) :
  e ∈ Event._waiters (event_for b s) ->
  e ∈ Event._waiters (event_for b (snd (run_waits tid' todo s))).
Proof.
  intros H. destruct (run_waits_cases tid' todo s) as [->|(x & rest & ->)];
    [exact H|].
  cbn [snd]. rewrite event_for_with_event.
  destruct (Bool.eqb_spec b x) as [->|]; [|exact H].
  cbn. apply elem_of_app. left. exact H.
Qed.

Lemma resume_keeps (tid tid' : nat) (k : task) (s : Switch.t) (b d : bool) :
  tid <> tid' ->
  (tid, d) ∈ Event._waiters (event_for b s) ->
  (tid, d) ∈ Event._waiters (event_for b (snd (resume tid' k s))).
Proof.
  intros Hne H. destruct k as [x rest|]; [|exact H]. cbn [resume].
  unfold Event.wait_resume. destruct (Event.fut_done tid' (event_for x s)); [|exact H].
  apply run_waits_keeps. rewrite event_for_with_event.
  destruct (Bool.eqb_spec b x) as [->|]; [|exact H].
  cbn. apply list_elem_of_filter. split; [|exact H].
  cbn. destruct (Nat.eqb_spec tid tid'); [contradiction|reflexivity].
Qed.

Lemma act_keeps_returned (tid : nat) (a : action) (w : world) :
  has_returned tid w = true -> has_returned tid (act a w) = true.
Proof.
  destruct w as [s ks]. unfold has_returned. cbn [tasks].
  destruct (ks !! tid) as [[|]|] eqn:E; try discriminate. intros _.
  destruct a as [| |x|co|t]; cbn [act tasks switch]; rewrite ?E; try reflexivity.
  - rewrite lookup_app_l by (eapply lookup_lt_Some, E). rewrite E. reflexivity.
  - destruct (ks !! t) as [k|] eqn:Et; cbn [tasks]; [|rewrite E; reflexivity].
    destruct (Nat.eq_dec t tid) as [->|Hne].
    + rewrite E in Et. injection Et as <-. cbn.
      rewrite list_lookup_insert_eq by (eapply lookup_lt_Some, E). reflexivity.
    + rewrite list_lookup_insert_ne by exact Hne. rewrite E. reflexivity.
Qed.

(** A task suspended in its last wait stays so, with its future kept,
    until the loop resumes it. *)
Lemma act_keeps_waiting (b : bool) (tid : nat) (a : action) (w : world)
    (P : bool -> Prop) :
  state_set_by a = None ->
  tasks w !! tid = Some (Suspended b []) ->
  (exists d, P d /\ (tid, d) ∈ Event._waiters (event_for b (switch w))) ->
  has_returned tid (act a w) = true \/
  (tasks (act a w) !! tid = Some (Suspended b []) /\
   exists d, P d /\ (tid, d) ∈ Event._waiters (event_for b (switch (act a w)))).
Proof.
  destruct w as [s ks]. cbn [tasks switch]. intros Ha Hk (d & HP & Hd).
  destruct a as [| |x|co|t]; try discriminate Ha; cbn [act tasks switch].
  - right. split.
    + rewrite lookup_app_l by (eapply lookup_lt_Some, Hk). exact Hk.
    + exists d. split; [exact HP|]. apply run_waits_keeps, Hd.
  - destruct (ks !! t) as [k|] eqn:Et; cbn [tasks switch]; [|right; eauto].
    destruct (Nat.eq_dec t tid) as [->|Hne].
    + rewrite Hk in Et. injection Et as <-. cbn [resume].
      destruct (Event.wait_resume tid (event_for b s)) as [e|]; cbn [fst snd run_waits].
      * left. unfold has_returned. cbn [tasks].
        rewrite list_lookup_insert_eq by (eapply lookup_lt_Some, Hk). reflexivity.
      * right. rewrite list_insert_id by exact Hk. eauto.
    + right. split.
      * rewrite list_lookup_insert_ne by exact Hne. exact Hk.
      * exists d. split; [exact HP|]. apply resume_keeps; auto.
Qed.

Lemma act_state_set_by (a : action) (x : bool) (w : world) :
  state_set_by a = Some x -> act a w = mkWorld (set_state x (switch w)) (tasks w).
Proof. destruct a; cbn; intros H; try discriminate H; injection H as <-; reflexivity. Qed.

Lemma act_keeps_state (a : action) (w : world) :
  state_set_by a = None -> _state (switch (act a w)) = _state (switch w).
Proof.
  destruct w as [s ks]. destruct a as [| |x|co|t]; intros H; try discriminate H;
    cbn [act switch tasks].
  - apply (run_waits_undisturbed 0).
  - destruct (ks !! t); [|reflexivity]. apply (resume_undisturbed 0).
Qed.

Lemma act_registered (b : bool) (tid : nat) (a : action) (w : world) :
  registered b tid w -> registered b tid (act a w).
Proof.
  intros [H|[Hk (d & Hd)]]; [left; apply act_keeps_returned, H|].
  destruct (state_set_by a) as [x|] eqn:Ea.
  - rewrite (act_state_set_by a x w Ea). right. cbn [tasks switch].
    split; [exact Hk|]. eapply set_state_keeps_entry, Hd.
  - destruct (act_keeps_waiting b tid a w (fun _ => True) Ea Hk) as [H|[H (d' & _ & H')]];
      [eauto|left; exact H|right; eauto].
Qed.

Lemma act_woken (b : bool) (tid : nat) (a : action) (w : world) :
  woken b tid w -> woken b tid (act a w).
Proof.
  intros [H|[Hk Hd]]; [left; apply act_keeps_returned, H|].
  destruct (state_set_by a) as [x|] eqn:Ea.
  - rewrite (act_state_set_by a x w Ea). right. cbn [tasks switch].
    split; [exact Hk|]. apply set_state_keeps_done, Hd.
  - destruct (act_keeps_waiting b tid a w (fun d => d = true) Ea Hk)
      as [H|[H (d' & -> & H')]]; [eauto|left; exact H|right; eauto].
Qed.

Lemma acts_woken (b : bool) (tid : nat) (l : list action) : forall w : world,
  woken b tid w -> woken b tid (acts l w).
Proof.
  induction l as [|a l IH]; intros w Hw; [exact Hw|]. cbn. apply IH, act_woken, Hw.
Qed.

(** The action by which the switch enters state [b] completes the future
    of every task waiting for that state. *)
Lemma toggle_wakes (b : bool) (tid : nat) (a : action) (w : world) :
  flags_sound (switch w) -> registered b tid w ->
  negb (Bool.eqb (is_set (switch w)) b)
  && Bool.eqb (is_set (switch (act a w))) b = true ->
  woken b tid (act a w).
Proof.
  intros Hf [H|[Hk (d & Hd)]] Ht; [left; apply act_keeps_returned, H|].
  apply andb_true_iff in Ht as [H1 H2]. unfold is_set in *.
  apply negb_true_iff, Bool.eqb_false_iff in H1. apply Bool.eqb_prop in H2.
  destruct (state_set_by a) as [x|] eqn:Ea.
  - rewrite (act_state_set_by a x w Ea) in *. cbn [tasks switch] in *.
    assert (Hs : _state (switch w) = negb b)
      by (destruct (_state (switch w)), b; cbn; congruence).
    assert (Hx : x = b).
    { destruct (switch w) as [on off st]. cbn in *. subst st.
      destruct x, b; cbn in H2; congruence. }
    subst x. right. split; [exact Hk|]. eapply set_state_marks; eassumption.
  - rewrite (act_keeps_state a w Ea) in H2. contradiction.
Qed.

Lemma toggle_then_woken (b : bool) (tid : nat) (l : list action) : forall w : world,
  sound w -> registered b tid w ->
  toggles_to b l w = true -> woken b tid (acts l w).
Proof.
  induction l as [|a l IH]; intros w Hs Hr Ht; [discriminate Ht|].
  cbn [toggles_to] in Ht. cbn [acts fold_left]. fold (acts l (act a w)).
  apply orb_true_iff in Ht as [Ht|Ht].
  - apply acts_woken, toggle_wakes; [apply Hs|exact Hr|exact Ht].
  - apply IH; [apply act_sound, Hs|apply act_registered, Hr|exact Ht].
Qed.

Lemma woken_resumes (b : bool) (tid : nat) (w : world) :
  woken b tid w -> has_returned tid (act (Resume tid) w) = true.
Proof.
  intros [H|[Hk Hd]]; [apply act_keeps_returned, H|].
  destruct w as [s ks]. cbn [tasks switch] in *. cbn [act tasks switch].
  rewrite Hk. cbn [resume]. unfold Event.wait_resume.
  assert (Hdone : Event.fut_done tid (event_for b s) = true).
  { unfold Event.fut_done. apply existsb_exists. exists (tid, true).
    split; [apply list_elem_of_In, Hd|]. cbn. rewrite Nat.eqb_refl. reflexivity. }
  rewrite Hdone. cbn. unfold has_returned. cbn [tasks].
  rewrite list_lookup_insert_eq by (eapply lookup_lt_Some, Hk). reflexivity.
Qed.

Lemma wait_for_is_one_wait (b : bool) : wait_for b = [b].
Proof. destruct b; reflexivity. Qed.

Lemma call_wait_for (b : bool) (w : world) :
  sound w ->
  (is_set (switch w) = b ->
   has_returned (length (tasks w)) (act (Call (wait_for b)) w) = true /\
   switch (act (Call (wait_for b)) w) = switch w) /\
  (is_set (switch w) = negb b ->
   awaiting_toggle b (length (tasks w)) (act (Call (wait_for b)) w) /\
   registered b (length (tasks w)) (act (Call (wait_for b)) w)).
Proof.
  destruct w as [s ks]. intros [Hf Hk]. cbn [act tasks switch] in *.
  rewrite wait_for_is_one_wait. unfold is_set. split; intros Hs;
    cbn [switch tasks] in Hs.
  - cbn [run_waits]. rewrite Hs, Bool.eqb_reflx. cbn. split; [|reflexivity].
    unfold has_returned. cbn [tasks]. rewrite lookup_app_r by lia.
    rewrite Nat.sub_diag. reflexivity.
  - assert (Hv : Event._value (event_for b s) = false).
    { destruct (Event._value (event_for b s)) eqn:E; [|reflexivity].
      apply Hf in E. rewrite Hs in E. destruct b; discriminate E. }
    assert (Hp : pending_in (length ks) (event_for b s)).
    { intros d H. apply Hk in H. cbn in H. lia. }
    pose proof (run_waits_undisturbed (length ks) (length ks) [b] s)
      as (Hs' & Hv' & Hp').
    assert (Hrun : run_waits (length ks) [b] s
                   = (Suspended b [],
                      with_event b
                        (Event.mk (Event._value (event_for b s))
                           (Event._waiters (event_for b s) ++ [(length ks, false)])) s)).
    { cbn [run_waits]. rewrite Hs. unfold Event.wait_begin. rewrite Hv.
      destruct b; reflexivity. }
    assert (Hlk : (ks ++ [fst (run_waits (length ks) [b] s)]) !! length ks
                  = Some (Suspended b [])).
    { rewrite lookup_app_r by lia. rewrite Nat.sub_diag, Hrun. reflexivity. }
    split.
    + split; [|split]; cbn [tasks switch].
      * eapply undisturbed_flags_sound; [|exact Hf]. repeat split; eauto.
      * apply Hp', Hp.
      * right. split; [exact Hlk|]. rewrite Hs'. exact Hs.
    + right. cbn [tasks switch]. split; [exact Hlk|].
      exists false. rewrite Hrun. cbn [snd]. rewrite event_for_with_event.
      rewrite Bool.eqb_reflx. cbn. apply elem_of_app. right.
      apply list_elem_of_singleton. reflexivity.
Qed.

(** [wait_for state] (that is [wait] or [wait_clear]) on a switch that is
    in that state returns at once and leaves the switch as it is; on a
    switch in the other state it suspends, and it has returned later only
    if the switch has entered that state in between. *)
Theorem wait_for_returns_only_in_state (b0 b : bool) (before after : list action) :
  let w := acts before (mkWorld (Switch.__init__ b0) []) in
  let tid := length (tasks w) in
  let w1 := act (Call (wait_for b)) w in
  (is_set (switch w) = b ->
   has_returned tid w1 = true /\ switch w1 = switch w) /\
  (is_set (switch w) = negb b ->
   has_returned tid w1 = false /\
   (has_returned tid (acts after w1) = true -> toggles_to b after w1 = true)).
Proof.
  intros w tid w1.
  destruct (call_wait_for b w) as [H1 H2]; [apply acts_sound, init_sound|].
  split; [exact H1|]. intros Hs. destruct (H2 Hs) as [Ha _]. split.
  - apply (awaiting_toggle_not_returned b), Ha.
  - apply returns_after_toggle, Ha.
Qed.

Lemma wait_for_returns_only_in_state_witness :
  has_returned 0 (act (Call (wait_for true)) (mkWorld (Switch.__init__ true) []))
  = true /\
  toggles_to false [DoClear; Resume 0]
    (act (Call (wait_for false)) (mkWorld (Switch.__init__ true) [])) = true.
Proof.
  split.
  - apply (proj1 (wait_for_returns_only_in_state true true [] [])). reflexivity.
  - apply (proj2 (wait_for_returns_only_in_state true false [] [DoClear; Resume 0]));
      reflexivity.
Defined.

(** No wake-up is missed: once the switch has entered the state a task
    waits for with [wait_for], the task returns when the loop next resumes
    it, even if the switch has left that state again by then. *)
Theorem wait_for_is_woken_by_a_toggle (b0 b : bool) (before after : list action) :
  let w := acts before (mkWorld (Switch.__init__ b0) []) in
  let tid := length (tasks w) in
  let w1 := act (Call (wait_for b)) w in
  toggles_to b after w1 = true ->
  has_returned tid (acts (after ++ [Resume tid]) w1) = true.
Proof.
  intros w tid w1 Ht.
  assert (Hw : sound w) by apply acts_sound, init_sound.
  assert (Hr : registered b tid w1).
  { destruct (call_wait_for b w Hw) as [H1 H2].
    destruct (Bool.eqb_spec (is_set (switch w)) b) as [E|E].
    - left. apply H1, E.
    - apply H2. destruct (is_set (switch w)), b; cbn; congruence. }
  unfold acts. rewrite fold_left_app. cbn [fold_left].
  apply (woken_resumes b), toggle_then_woken; [apply act_sound, Hw|exact Hr|exact Ht].
Qed.

Lemma wait_for_is_woken_by_a_toggle_witness :
  has_returned 0
    (acts ([DoSet; DoClear] ++ [Resume 0])
       (act (Call (wait_for true)) (mkWorld (Switch.__init__ false) []))) = true.
Proof.
  apply (wait_for_is_woken_by_a_toggle false true [] [DoSet; DoClear]).
  reflexivity.
Defined.

Lemma wait_toggle_is_wait_for (s : Switch.t) :
  wait_toggle s = wait_for (negb (is_set s)).
Proof. unfold wait_toggle, is_set. destruct (_state s); reflexivity. Qed.

(** [wait_toggle] always suspends; it has returned later only if the
    switch has left the state it was in at the call, and once the switch
    has left that state the task returns when the loop next resumes it. *)
Theorem wait_toggle_awaits_a_change (b0 : bool) (before after : list action) :
  let w := acts before (mkWorld (Switch.__init__ b0) []) in
  let tid := length (tasks w) in
  let w1 := act (Call (wait_toggle (switch w))) w in
  has_returned tid w1 = false /\
  (has_returned tid (acts after w1) = true ->
   toggles_to (negb (is_set (switch w))) after w1 = true) /\
  (toggles_to (negb (is_set (switch w))) after w1 = true ->
   has_returned tid (acts (after ++ [Resume tid]) w1) = true).
Proof.
  intros w tid w1. subst w1. rewrite wait_toggle_is_wait_for.
  assert (Hw : sound w) by apply acts_sound, init_sound.
  destruct (call_wait_for (negb (is_set (switch w))) w Hw) as [_ H].
  destruct H as [Ha Hr]; [symmetry; apply negb_involutive|].
  split; [|split].
  - apply (awaiting_toggle_not_returned (negb (is_set (switch w)))), Ha.
  - apply returns_after_toggle, Ha.
  - intros Ht. unfold acts. rewrite fold_left_app. cbn [fold_left].
    apply (woken_resumes (negb (is_set (switch w)))), toggle_then_woken;
      [apply act_sound, Hw|exact Hr|exact Ht].
Qed.

Lemma wait_toggle_awaits_a_change_witness :
  toggles_to false [DoClear; DoSet; Resume 0]
    (act (Call (wait_toggle (Switch.__init__ true)))
       (mkWorld (Switch.__init__ true) [])) = true /\
  has_returned 0
    (acts ([DoClear; DoSet] ++ [Resume 0])
       (act (Call (wait_toggle (Switch.__init__ true)))
          (mkWorld (Switch.__init__ true) []))) = true.
Proof.
  pose proof (wait_toggle_awaits_a_change true []) as H. split.
  - apply (proj1 (proj2 (H [DoClear; DoSet; Resume 0]))). reflexivity.
  - apply (proj2 (proj2 (H [DoClear; DoSet]))). reflexivity.
Defined.

End SwitchWakeups.

(** ** The broadcast pulse, further properties *)

Section PulseFutures.

Import Loop Pulse.

Lemma set_results_length (v : Z) (futs : list nat) : forall l : Loop.t,
  length (futures (snd (set_results futs v l))) = length (futures l).
Proof.
  induction futs as [|f futs IH]; intros l; [reflexivity|].
  cbn [set_results]. unfold bind. rewrite set_result_eq.
  destruct (futures l !! f) as [[]|]; try reflexivity.
  rewrite IH. cbn. apply length_insert.
Qed.

(** An operation other than [wait] hands out no future and makes none;
    [wait] hands out the one future it makes. *)
Lemma step_makes_futures (o : op) (s : Pulse.t * Loop.t) :
  (fst (step o s) = Ret (Some (length (futures (snd s)))) /\
   length (futures (snd (snd (step o s)))) = S (length (futures (snd s)))) \/
  (returned [fst (step o s)] = [] /\
   length (futures (snd (snd (step o s)))) = length (futures (snd s))).
Proof.
  destruct s as [p l]. destruct o as [| |fut|d].
  - left. rewrite step_wait_eq. cbn. rewrite length_app. cbn. split; [reflexivity|lia].
  - right. unfold step, bind. rewrite fire_eq.
    pose proof (set_results_length (clock l) (_waiters p) (logged l)) as Hl.
    destruct (set_results (_waiters p) (clock l) (logged l)) as [[[]|e] l'];
      cbn in *; auto.
  - right. unfold step, bind, lift, cancel, bind, get, modify, ret. cbn.
    destruct (futures l !! fut) as [[]|]; cbn; rewrite ?length_insert; auto.
  - right. cbn. auto.
Qed.

Lemma returned_cons (r : outcome (option nat)) (rs : list (outcome (option nat))) :
  returned (r :: rs) = returned [r] ++ returned rs.
Proof. destruct r as [[f|]|e]; reflexivity. Qed.

Lemma steps_return_fresh (os : list op) : forall s : Pulse.t * Loop.t,
  NoDup (returned (fst (steps os s))) /\
  forall fut, fut ∈ returned (fst (steps os s)) ->
    (length (futures (snd s)) <= fut)%nat.
Proof.
  induction os as [|o os IH]; intros s.
  - cbn. split; [apply NoDup_nil_2|]. intros fut H. inversion H.
  - cbn [steps fst snd]. rewrite returned_cons.
    destruct (IH (snd (step o s))) as [Hnd Hge].
    destruct (step_makes_futures o s) as [[Hr Hl]|[Hr Hl]].
    + rewrite Hr. cbn [returned app]. rewrite Hl in Hge. split.
      * apply NoDup_cons. split; [|exact Hnd]. intros H. apply Hge in H. lia.
      * intros fut H. apply elem_of_cons in H as [->|H]; [lia|].
        apply Hge in H. lia.
    + rewrite Hr. cbn [app]. rewrite Hl in Hge. split; assumption.
Qed.

(** Every [wait] returns a future of its own: the futures handed out in
    the course of any use of a pulse are pairwise distinct, and none of
    them existed before. *)
Theorem waits_return_distinct_futures (os : list op) (s : Pulse.t * Loop.t) :
  NoDup (returned (fst (steps os s))) /\
  forall fut, fut ∈ returned (fst (steps os s)) -> futures (snd s) !! fut = None.
Proof.
  destruct (steps_return_fresh os s) as [Hnd Hge]. split; [exact Hnd|].
  intros fut H. apply lookup_ge_None, Hge, H.
Qed.

Lemma set_results_keeps_done (v : Z) (futs : list nat) (f : nat) (st : fstate) :
  st <> Pending -> forall l : Loop.t,
  futures l !! f = Some st ->
  futures (snd (set_results futs v l)) !! f = Some st.
Proof.
  intros Hst. induction futs as [|g futs IH]; intros l Hf; [exact Hf|].
  cbn [set_results]. unfold bind. rewrite set_result_eq.
  destruct (futures l !! g) as [[]|] eqn:Eg; try exact Hf.
  apply IH. cbn. rewrite list_lookup_insert_ne; [exact Hf|].
  intros ->. rewrite Hf in Eg. congruence.
Qed.

Lemma step_keeps_done (o : op) (s : Pulse.t * Loop.t) (f : nat) (st : fstate) :
  st <> Pending ->
  futures (snd s) !! f = Some st ->
  futures (snd (snd (step o s))) !! f = Some st.
Proof.
  destruct s as [p l]. cbn [snd]. intros Hst Hf. destruct o as [| |fut|d].
  - rewrite step_wait_eq. cbn. apply lookup_app_l_Some, Hf.
  - unfold step, bind. rewrite fire_eq.
    pose proof (set_results_keeps_done (clock l) (_waiters p) f st Hst (logged l) Hf) as H.
    destruct (set_results (_waiters p) (clock l) (logged l)) as [[[]|e] l']; exact H.
  - unfold step, bind, lift, cancel, bind, get, modify, ret. cbn.
    destruct (futures l !! fut) as [[]|] eqn:Eg; cbn; try exact Hf.
    rewrite list_lookup_insert_ne; [exact Hf|]. intros ->. rewrite Hf in Eg. congruence.
  - exact Hf.
Qed.

(** A future that is done keeps its state: whatever is done with the pulse
    afterwards, a result delivered by [fire] is never replaced and a
    cancelled future is never resolved. *)
Theorem done_futures_keep_their_state
    (os : list op) (s : Pulse.t * Loop.t) (f : nat) (st : fstate) :
  st <> Pending ->
  futures (snd s) !! f = Some st ->
  futures (snd (snd (steps os s))) !! f = Some st.
Proof.
  intros Hst. revert s. induction os as [|o os IH]; intros s Hf; [exact Hf|].
  cbn [steps snd]. apply IH, step_keeps_done; assumption.
Qed.

Lemma done_futures_keep_their_state_witness :
  futures (snd (snd (steps [Wait; Fire; Abandon 0; Sleep 4; Fire]
                       (snd (steps [Wait; Sleep 3; Fire]
                               (Pulse.__init__, Loop.new 0))))))
    !! 0%nat
  = Some (Finished 3).
Proof.
  apply (done_futures_keep_their_state [Wait; Fire; Abandon 0; Sleep 4; Fire]
           (snd (steps [Wait; Sleep 3; Fire] (Pulse.__init__, Loop.new 0)))
           0%nat (Finished 3)).
  - discriminate.
  - reflexivity.
Defined.

Lemma set_results_raises (v : Z) (futs : list nat) : forall l : Loop.t,
  (exists fut, fut ∈ futs /\ futures l !! fut <> Some Pending) ->
  fst (set_results futs v l) = Raise InvalidStateError.
Proof.
  induction futs as [|g futs IH]; intros l (fut & Hin & Hbad); [inversion Hin|].
  cbn [set_results]. unfold bind. rewrite set_result_eq.
  destruct (futures l !! g) as [[]|] eqn:Eg; try reflexivity.
  apply IH. exists fut. apply elem_of_cons in Hin as [->|Hin]; [congruence|].
  split; [exact Hin|]. cbn. rewrite list_lookup_insert_ne; [exact Hbad|].
  intros ->. congruence.
Qed.

(** [fire] raises [InvalidStateError] whenever one of the registered
    waiters is no longer pending, and it then leaves every waiter
    registered. *)
Theorem fire_raises_on_a_done_waiter (s : Pulse.t * Loop.t) (fut : nat) :
  fut ∈ _waiters (fst s) ->
  futures (snd s) !! fut <> Some Pending ->
  fst (fire s) = Raise InvalidStateError /\
  _waiters (fst (snd (fire s))) = _waiters (fst s).
Proof.
  destruct s as [p l]. cbn [fst snd]. intros Hin Hbad. rewrite fire_eq.
  pose proof (set_results_raises (clock l) (_waiters p) (logged l)) as H.
  destruct (set_results (_waiters p) (clock l) (logged l)) as [[[]|e] l'].
  - cbn in H. discriminate H. exists fut. auto.
  - cbn in *. split; [|reflexivity]. rewrite H; [reflexivity|]. exists fut. auto.
Qed.

Lemma fire_raises_on_a_done_waiter_witness :
  fst (fire (snd (steps [Wait; Wait; Abandon 0] (Pulse.__init__, Loop.new 0))))
  = Raise InvalidStateError.
Proof.
  apply (fire_raises_on_a_done_waiter
           (snd (steps [Wait; Wait; Abandon 0] (Pulse.__init__, Loop.new 0))) 0%nat).
  - cbn. left.
  - cbn. discriminate.
Defined.

Lemma waits_return_distinct_futures_witness :
  futures (Loop.new 0) !! 1%nat = None.
Proof.
  apply (proj2 (waits_return_distinct_futures [Wait; Fire; Wait]
                  (Pulse.__init__, Loop.new 0)) 1%nat).
  cbn. right. left.
Defined.

End PulseFutures.

(** ** Timers, further properties *)

Section TimerRuns.

Import Loop.

Lemma ticker_tick_cases (k : Ticker.t) (l : Loop.t) :
  Ticker._tick (k, l)
  = if Ticker.is_done k then (Ret tt, (k, l))
    else if Ticker.count_exceeded k then Ticker.stop (k, l)
    else match Pulse.fire (Ticker._ready_pulse k, l) with
         | (Ret _, (p, l')) =>
             (Ret tt,
              (Ticker.mk (Ticker._iteration_count k + 1) p (Ticker._done_event k)
                 (Ticker._period k) (Ticker._start_time k) (Ticker._count k)
                 (Ticker._started k) (Some (length (timers l'))),
               with_timers
                 (timers l' ++ [mkHandle (Ticker._iteration_count k * Ticker._period k
                                          + Ticker._start_time k) false false]) l'))
         | (Raise e, (p, l')) =>
             (Raise e,
              (Ticker.mk (Ticker._iteration_count k) p (Ticker._done_event k)
                 (Ticker._period k) (Ticker._start_time k) (Ticker._count k)
                 (Ticker._started k) (Ticker._tick_handle k), l'))
         end.
Proof.
  destruct k as [it p ev P T c st h].
  unfold Ticker._tick, bind at 1, object, bind at 1, get, ret. cbn [fst snd].
  unfold Ticker.is_done, Ticker.count_exceeded. cbn [Ticker._done_event Ticker._count
    Ticker._iteration_count Ticker._ready_pulse Ticker._period Ticker._start_time
    Ticker._started Ticker._tick_handle].
  destruct (Event.is_set ev); [reflexivity|].
  destruct (match c with Some c0 => it >? c0 | None => false end); [reflexivity|].
  unfold bind at 1, Ticker.fire_ready_pulse. cbn [fst snd Ticker._ready_pulse].
  destruct (Pulse.fire (p, l)) as [[[]|e] [p' l']]; reflexivity.
Qed.

Lemma tick_keeps_started (s : Ticker.t * Loop.t) :
  Ticker._started (fst (snd (Ticker._tick s))) = Ticker._started (fst s).
Proof.
  destruct s as [k l]. rewrite ticker_tick_cases. cbn [fst].
  destruct (Ticker.is_done k); [reflexivity|].
  destruct (Ticker.count_exceeded k).
  - rewrite stop_eq. destruct (Ticker._tick_handle k); reflexivity.
  - destruct (Pulse.fire (Ticker._ready_pulse k, l)) as [[[]|e] [p' l']]; reflexivity.
Qed.

(** A ticker is started once: whatever the state [start] is called in, a
    second [start] raises [RuntimeError] and changes nothing. *)
Theorem start_twice_raises (s : Ticker.t * Loop.t) :
  Ticker.start (snd (Ticker.start s)) = (Raise RuntimeError, snd (Ticker.start s)).
Proof.
  assert (Hst : Ticker._started (fst (snd (Ticker.start s))) = true).
  { destruct s as [k l]. rewrite start_eq.
    destruct (Ticker._started k) eqn:E; [exact E|].
    rewrite tick_keeps_started. reflexivity. }
  destruct (snd (Ticker.start s)) as [k' l']. rewrite start_eq.
  cbn [fst] in Hst. rewrite Hst. reflexivity.
Qed.

Lemma until_next_eq (k : Ticker.t) (l : Loop.t) :
  Ticker.until_next (k, l)
  = match Ticker._tick_handle k with
    | None => (Raise RuntimeError, (k, l))
    | Some h =>
        if Ticker.is_done k then (Raise RuntimeError, (k, l))
        else match timers l !! h with
             | Some hd => (Ret (_when hd - clock l), (k, l))
             | None => (Raise RuntimeError, (k, l))
             end
    end.
Proof.
  unfold Ticker.until_next, bind at 1, object, bind at 1, get, ret, raise. cbn [fst snd].
  destruct (Ticker._tick_handle k) as [h|]; [|reflexivity].
  destruct (Ticker.is_done k); [reflexivity|].
  unfold bind, lift, time, bind, get, ret. cbn.
  destruct (timers l !! h); reflexivity.
Qed.

(** [until_next] never changes anything, and it raises [RuntimeError] on
    a ticker that was made with [start=False] and not started, as well as
    after any call of [stop]. *)
Theorem until_next_raises_when_not_running
    (s : Ticker.t * Loop.t) (P : Z) (count : option Z) (l : Loop.t) :
  snd (Ticker.until_next s) = s /\
  fst (Ticker.until_next (snd (Ticker.__init__ P count false l))) = Raise RuntimeError /\
  fst (Ticker.until_next (snd (Ticker.stop s))) = Raise RuntimeError.
Proof.
  split; [|split].
  - destruct s as [k l0]. rewrite until_next_eq.
    destruct (Ticker._tick_handle k) as [h|]; [|reflexivity].
    destruct (Ticker.is_done k); [reflexivity|].
    destruct (timers l0 !! h); reflexivity.
  - reflexivity.
  - destruct s as [k l0]. rewrite stop_eq.
    destruct (Ticker._tick_handle k) as [h|] eqn:Eh; cbn [snd].
    + rewrite until_next_eq. cbn [Ticker.with_done_event Ticker._tick_handle].
      rewrite Eh. unfold Ticker.is_done, Event.is_set, Event.set. cbn.
      destruct (Event._value (Ticker._done_event k)) eqn:E; cbn; rewrite ?E; reflexivity.
    + rewrite until_next_eq, Eh. reflexivity.
Qed.

Lemma run_once_done (d : nat) (s : Ticker.t * Loop.t) :
  Ticker.is_done (fst s) = true ->
  fst (run_once Ticker._tick d s) = fst s /\
  fire_log (snd (run_once Ticker._tick d s)) = fire_log (snd s).
Proof.
  destruct s as [k l]. cbn [fst snd]. intros Hd. unfold run_once. cbn [fst snd].
  destruct (next_timer l) as [[h w]|]; [|auto].
  rewrite ticker_tick_cases, Hd. cbn. auto.
Qed.

Lemma run_done (delays : list nat) : forall s : Ticker.t * Loop.t,
  Ticker.is_done (fst s) = true ->
  fst (run Ticker._tick delays s) = fst s /\
  fire_log (snd (run Ticker._tick delays s)) = fire_log (snd s).
Proof.
  induction delays as [|d ds IH]; intros s Hd; [auto|].
  cbn [run fold_left]. fold (run Ticker._tick ds (run_once Ticker._tick d s)).
  destruct (run_once_done d s Hd) as [Hk Hl].
  destruct (IH (run_once Ticker._tick d s)) as [Hk' Hl']; [rewrite Hk; exact Hd|].
  rewrite Hk', Hl'. auto.
Qed.

(** Once [stop] has been called on a ticker that has a timer handle, the
    ticker is done, [wait_done] returns, and no turn of the loop fires the
    readiness pulse or changes the ticker any more. *)
Theorem stopped_ticker_never_fires_again
    (s : Ticker.t * Loop.t) (h : nat) (delays : list nat) :
  Ticker._tick_handle (fst s) = Some h ->
  Ticker.is_done (fst (snd (Ticker.stop s))) = true /\
  Ticker.wait_done_returns (fst (snd (Ticker.stop s))) = true /\
  fst (run Ticker._tick delays (snd (Ticker.stop s))) = fst (snd (Ticker.stop s)) /\
  Ticker.firings (run Ticker._tick delays (snd (Ticker.stop s))) = Ticker.firings s.
Proof.
  destruct s as [k l]. cbn [fst]. intros Hh.
  assert (Hd : Ticker.is_done (fst (snd (Ticker.stop (k, l)))) = true).
  { rewrite stop_eq, Hh. cbn. unfold Ticker.is_done, Event.is_set, Event.set. cbn.
    destruct (Event._value (Ticker._done_event k)) eqn:E; cbn; rewrite ?E; reflexivity. }
  destruct (run_done delays _ Hd) as [Hk Hl].
  split; [exact Hd|]. split; [|split; [exact Hk|]].
  - unfold Ticker.wait_done_returns, Event.wait_begin.
    unfold Ticker.is_done, Event.is_set in Hd. rewrite Hd. reflexivity.
  - unfold Ticker.firings. rewrite Hl, stop_eq, Hh. cbn.
    destruct (timers l !! h); reflexivity.
Qed.

Lemma stopped_ticker_never_fires_again_witness :
  Ticker.firings
    (run Ticker._tick [0; 5; 0]%nat
       (snd (Ticker.stop (snd (Ticker.__init__ 10 None true (Loop.new 0))))))
  = Ticker.firings (snd (Ticker.__init__ 10 None true (Loop.new 0))).
Proof.
  apply (stopped_ticker_never_fires_again
           (snd (Ticker.__init__ 10 None true (Loop.new 0))) 0%nat [0; 5; 0]%nat).
  reflexivity.
Defined.

Lemma ticker_init_negative (P c : Z) (l : Loop.t) :
  c < 0 ->
  Ticker.__init__ P (Some c) true l
  = (Ret tt,
     (Ticker.mk 0 Pulse.__init__ Event.new P (clock l) (Some c) true None, l)).
Proof.
  intros Hc. unfold Ticker.__init__. rewrite start_eq. cbn [Ticker._started].
  rewrite ticker_tick_eq by reflexivity.
  unfold Ticker.count_exceeded. cbn. rewrite Z.gtb_ltb.
  destruct (Z.ltb_spec c 0); [|lia]. reflexivity.
Qed.

(** A ticker made with a negative count and started never ticks: the
    constructor ends normally without firing or setting a timer, the
    ticker is not done, and [stop] has no effect on it. *)
Theorem ticker_with_negative_count_never_ticks (P c : Z) (l : Loop.t) :
  c < 0 ->
  let r := Ticker.__init__ P (Some c) true l in
  fst r = Ret tt /\
  snd (snd r) = l /\
  Ticker.iteration_count (fst (snd r)) = 0 /\
  Ticker.is_done (fst (snd r)) = false /\
  Ticker.stop (snd r) = (Ret tt, snd r) /\
  Ticker.wait_done_returns (fst (snd (Ticker.stop (snd r)))) = false.
Proof.
  intros Hc. cbv zeta. rewrite ticker_init_negative by exact Hc.
  repeat split; reflexivity.
Qed.

Lemma ticker_with_negative_count_never_ticks_witness :
  snd (snd (Ticker.__init__ 10 (Some (-1)) true (Loop.new 0))) = Loop.new 0.
Proof.
  apply (ticker_with_negative_count_never_ticks 10 (-1) (Loop.new 0)). lia.
Defined.

End TimerRuns.

Section AwaitedTimers.

Import Loop.

Lemma turns_app (us : list use) (u : use) :
  turns (us ++ [u]) = (turns us + match u with Turn _ => 1 | Await => 0 end)%nat.
Proof.
  unfold turns. rewrite List.filter_app, length_app. destruct u; reflexivity.
Qed.

Lemma pending_elsewhere (p : Pulse.t) (l l' : Loop.t) :
  futures l' = futures l ->
  Pulse.waiters_pending (p, l) -> Pulse.waiters_pending (p, l').
Proof. intros H [Hnd Hp]. split; [exact Hnd|]. cbn in *. rewrite H. exact Hp. Qed.

(** *** TimePulse *)

Lemma time_pulse_wait_eq (p : TimePulse.t) (l : Loop.t) :
  TimePulse.wait (p, l)
  = (Ret (length (futures l)),
     (TimePulse.mk
        (Pulse.mk (Pulse._waiters (TimePulse.base p) ++ [length (futures l)])
           (Pulse._value (TimePulse.base p)))
        (TimePulse._period p) (TimePulse._start_time p) (TimePulse._ticks p),
      with_futures (futures l ++ [Pending]) (_ready l) l)).
Proof. reflexivity. Qed.

Lemma time_pulse_tick_awaited (p : TimePulse.t) (l : Loop.t) :
  Pulse.waiters_pending (TimePulse.base p, l) ->
  exists fs',
    TimePulse._tick (p, l)
    = (Ret tt,
       (TimePulse.mk (Pulse.mk [] (Some (clock l))) (TimePulse._period p)
          (TimePulse._start_time p) (TimePulse._ticks p + 1),
        with_timers
          (timers l ++ [mkHandle (TimePulse._start_time p
                                  + TimePulse._period p * (TimePulse._ticks p + 1))
                          false false])
          (with_futures fs' (_ready l ++ Pulse._waiters (TimePulse.base p))
             (logged l)))).
Proof.
  intros Hp. destruct (fire_pending _ _ Hp) as (fs' & Hrun & _).
  exists fs'. destruct p as [b P T n]. cbn [TimePulse.base] in *.
  unfold TimePulse._tick, bind at 1, TimePulse._fire. cbn [fst snd TimePulse.base].
  change Pulse._fire with Pulse.fire. rewrite Hrun. reflexivity.
Qed.

Lemma time_pulse_init_awaited (P t0 : Z) :
  TimePulse.ticking_awaited t0 P 0 (TimePulse.__init__ P (Loop.new t0)).
Proof.
  unfold TimePulse.ticking_awaited, TimePulse.deadline. cbn.
  repeat split; try reflexivity.
  - apply NoDup_nil_2.
  - intros fut H. inversion H.
  - do 3 f_equal. lia.
Qed.

Lemma time_pulse_live_awaited (T P : Z) (n : nat) (u : use)
    (s : TimePulse.t * Loop.t) :
  TimePulse.ticking_awaited T P n s ->
  TimePulse.ticking_awaited T P
    (n + match u with Turn _ => 1 | Await => 0 end) (TimePulse.live u s).
Proof.
  destruct s as [p l]. intros (HT & HP & Hn & Hw & Hts & Hlog). cbn [fst snd] in *.
  destruct u as [d|]; cbn [TimePulse.live].
  - replace (n + 1)%nat with (S n) by lia.
    unfold run_once. cbn [fst snd].
    erewrite next_timer_last; [|exact Hts|apply called_not_due].
    destruct (time_pulse_tick_awaited p
                (take_up (length (map (fun i => mkHandle (TimePulse.deadline T P i) false true)
                                    (seq 0 n)))
                   (TimePulse.deadline T P n) d l)) as (fs' & ->).
    { eapply pending_elsewhere; [|exact Hw]. reflexivity. }
    cbn [fst snd]. unfold TimePulse.ticking_awaited. rewrite !seq_S, !map_app. cbn.
    rewrite HT, HP, Hn, Hts, length_map, length_seq.
    rewrite lookup_last by (rewrite length_map, length_seq; reflexivity).
    cbn. rewrite mark_last by (rewrite length_map, length_seq; reflexivity).
    repeat split; try reflexivity.
    + lia.
    + apply NoDup_nil_2.
    + intros fut H. inversion H.
    + do 3 f_equal. unfold TimePulse.deadline. do 2 f_equal. lia.
    + rewrite map_app, Hlog. reflexivity.
  - rewrite Nat.add_0_r, time_pulse_wait_eq. cbn [fst snd].
    unfold TimePulse.ticking_awaited. cbn [fst snd TimePulse._start_time
      TimePulse._period TimePulse._ticks TimePulse.base].
    repeat split; try assumption.
    + apply (step_waiters_pending Pulse.Wait (TimePulse.base p, l) eq_refl Hw).
    + apply (step_waiters_pending Pulse.Wait (TimePulse.base p, l) eq_refl Hw).
Qed.

Lemma time_pulse_lives_awaited (T P : Z) (us : list use) :
  forall (n : nat) (s : TimePulse.t * Loop.t),
  TimePulse.ticking_awaited T P n s ->
  TimePulse.ticking_awaited T P (n + turns us) (TimePulse.lives us s).
Proof.
  induction us as [|u us IH] using rev_ind; intros n s Hs.
  - cbn. rewrite Nat.add_0_r. exact Hs.
  - unfold TimePulse.lives. rewrite fold_left_app. cbn [fold_left].
    rewrite turns_app, Nat.add_assoc.
    apply time_pulse_live_awaited, IH, Hs.
Qed.

(** As long as no waiter abandons its wait, a [TimePulse] never stops:
    whatever tasks start waiting on it in between, every turn of the loop
    calls its one pending timer, which fires the pulse once, counts the
    tick and sets the next timer. *)
Theorem time_pulse_fires_once_a_turn (P t0 : Z) (us : list use) :
  let s := TimePulse.lives us (TimePulse.__init__ P (Loop.new t0)) in
  length (fire_log (snd s)) = turns us /\
  TimePulse._ticks (fst s) = Z.of_nat (turns us) /\
  fst <$> next_timer (snd s) = Some (turns us).
Proof.
  intros s.
  pose proof (time_pulse_lives_awaited t0 P us 0 _ (time_pulse_init_awaited P t0))
    as (_ & _ & Hn & _ & Hts & Hlog).
  fold s in Hn, Hts, Hlog. cbn [Nat.add] in *. split; [|split].
  - rewrite <- (length_map snd), Hlog, length_map, length_seq. reflexivity.
  - exact Hn.
  - erewrite next_timer_last; [|exact Hts|apply called_not_due].
    cbn. rewrite length_map, length_seq. reflexivity.
Qed.

(** *** Ticker *)

Lemma ticker_await_eq (k : Ticker.t) (l : Loop.t) :
  Ticker.__await__ (k, l)
  = (Ret (length (futures l)),
     (Ticker.mk (Ticker._iteration_count k)
        (Pulse.mk (Pulse._waiters (Ticker._ready_pulse k) ++ [length (futures l)])
           (Pulse._value (Ticker._ready_pulse k)))
        (Ticker._done_event k) (Ticker._period k) (Ticker._start_time k)
        (Ticker._count k) (Ticker._started k) (Ticker._tick_handle k),
      with_futures (futures l ++ [Pending]) (_ready l) l)).
Proof. reflexivity. Qed.

Lemma ticker_tick_awaited (k : Ticker.t) (l : Loop.t) :
  Ticker.is_done k = false ->
  Pulse.waiters_pending (Ticker._ready_pulse k, l) ->
  exists fs',
    Ticker._tick (k, l)
    = if Ticker.count_exceeded k then Ticker.stop (k, l)
      else (Ret tt,
            (Ticker.mk (Ticker._iteration_count k + 1)
               (Pulse.mk [] (Some (clock l))) (Ticker._done_event k)
               (Ticker._period k) (Ticker._start_time k) (Ticker._count k)
               (Ticker._started k) (Some (length (timers l))),
             with_timers
               (timers l ++ [mkHandle (Ticker._iteration_count k * Ticker._period k
                                       + Ticker._start_time k) false false])
               (with_futures fs'
                  (_ready l ++ Pulse._waiters (Ticker._ready_pulse k)) (logged l)))).
Proof.
  intros Hd Hp. destruct (fire_pending _ _ Hp) as (fs' & Hrun & _).
  exists fs'. rewrite ticker_tick_cases, Hd, Hrun. reflexivity.
Qed.

Lemma running_is_awaited (T P : Z) (count : option Z) (n : nat)
    (s : Ticker.t * Loop.t) :
  Ticker.running T P count n s -> Ticker.running_awaited T P count n s.
Proof.
  intros (Hd & HT & HP & Hc & Hit & Hw & Hh & Hts & Hlog).
  repeat split; try assumption; cbn; rewrite Hw.
  - apply NoDup_nil_2.
  - intros fut H. inversion H.
Qed.

Lemma ticker_turn_fires (T P : Z) (count : option Z) (n d : nat)
    (s : Ticker.t * Loop.t) :
  Ticker.running_awaited T P count n s ->
  Ticker.count_exceeded (fst s) = false ->
  Ticker.running_awaited T P count (S n) (run_once Ticker._tick d s).
Proof.
  destruct s as [k l].
  intros (Hd & HT & HP & Hc & Hit & Hw & Hh & Hts & Hlog) He. cbn [fst snd] in *.
  unfold run_once. cbn [fst snd].
  erewrite next_timer_last; [|exact Hts|apply called_not_due].
  destruct (ticker_tick_awaited k
              (take_up (length (map (fun i => mkHandle (Z.of_nat i * P + T) false true)
                                  (seq 0 n)))
                 (Z.of_nat n * P + T) d l) Hd) as (fs' & ->).
  { eapply pending_elsewhere; [|exact Hw]. reflexivity. }
  rewrite He. cbn [fst snd].
  unfold Ticker.running_awaited. rewrite !seq_S, !map_app. cbn.
  rewrite HT, HP, Hit, Hts, length_map, length_seq.
  rewrite lookup_last by (rewrite length_map, length_seq; reflexivity).
  cbn. rewrite mark_last by (rewrite length_map, length_seq; reflexivity).
  rewrite !length_app, length_map, length_seq. cbn.
  repeat split; try assumption; try reflexivity.
  - lia.
  - apply NoDup_nil_2.
  - intros fut H. inversion H.
  - f_equal. lia.
  - rewrite map_app, Hlog. reflexivity.
Qed.

Lemma ticker_turn_stops (T P : Z) (count : option Z) (n d : nat)
    (s : Ticker.t * Loop.t) :
  Ticker.running_awaited T P count n s ->
  Ticker.count_exceeded (fst s) = true ->
  Ticker.settled (run_once Ticker._tick d s).
Proof.
  destruct s as [k l].
  intros (Hd & HT & HP & Hc & Hit & Hw & Hh & Hts & Hlog) He. cbn [fst snd] in *.
  unfold run_once. cbn [fst snd].
  erewrite next_timer_last; [|exact Hts|apply called_not_due].
  destruct (ticker_tick_awaited k
              (take_up (length (map (fun i => mkHandle (Z.of_nat i * P + T) false true)
                                  (seq 0 n)))
                 (Z.of_nat n * P + T) d l) Hd) as (fs' & ->).
  { eapply pending_elsewhere; [|exact Hw]. reflexivity. }
  rewrite He, stop_eq, Hh. cbn [fst snd].
  unfold Ticker.settled, Ticker.firings, Ticker.is_done, Event.is_set, Event.set in *.
  cbn [fst snd Ticker.with_done_event Ticker._done_event Ticker._iteration_count].
  rewrite Hd. cbn [Event._value]. split; [reflexivity|].
  rewrite Hit. f_equal.
  match goal with
  | |- _ = length (fire_log ?x) => assert (Hx : fire_log x = fire_log l)
  end.
  { cbn. rewrite Hts, length_map, length_seq.
    rewrite lookup_last by (rewrite length_map, length_seq; reflexivity).
    cbn. rewrite mark_last by (rewrite length_map, length_seq; reflexivity).
    rewrite lookup_last by (rewrite length_map, length_seq; reflexivity).
    reflexivity. }
  rewrite Hx, <- (length_map snd), Hlog. cbn. rewrite length_map, length_seq.
  reflexivity.
Qed.

Lemma ticker_await_running (T P : Z) (count : option Z) (n : nat)
    (s : Ticker.t * Loop.t) :
  Ticker.running_awaited T P count n s ->
  Ticker.running_awaited T P count n (snd (Ticker.__await__ s)).
Proof.
  destruct s as [k l].
  intros (Hd & HT & HP & Hc & Hit & Hw & Hh & Hts & Hlog). cbn [fst snd] in *.
  rewrite ticker_await_eq. cbn [snd]. unfold Ticker.running_awaited.
  cbn [fst snd Ticker._start_time Ticker._period Ticker._count
    Ticker._iteration_count Ticker._ready_pulse Ticker._tick_handle].
  repeat split; try assumption.
  - apply (step_waiters_pending Pulse.Wait (Ticker._ready_pulse k, l) eq_refl Hw).
  - apply (step_waiters_pending Pulse.Wait (Ticker._ready_pulse k, l) eq_refl Hw).
Qed.

Lemma ticker_live_settled (u : use) (s : Ticker.t * Loop.t) :
  Ticker.settled s -> Ticker.settled (Ticker.live u s).
Proof.
  intros [Hd Hit]. destruct u as [d|]; cbn [Ticker.live].
  - destruct (run_once_done d s Hd) as [Hk Hl].
    unfold Ticker.settled, Ticker.firings. rewrite Hk, Hl. auto.
  - destruct s as [k l]. rewrite ticker_await_eq. split; assumption.
Qed.

Lemma ticker_live_idle (u : use) (s : Ticker.t * Loop.t) :
  Ticker.idle s -> Ticker.idle (Ticker.live u s).
Proof.
  intros (Hts & Hlog & Hit). destruct u as [d|]; cbn [Ticker.live].
  - unfold run_once, next_timer. rewrite Hts. cbn. repeat split; assumption.
  - destruct s as [k l]. rewrite ticker_await_eq. repeat split; assumption.
Qed.

Lemma ticker_lives_unbounded (T P : Z) (us : list use) :
  forall (n : nat) (s : Ticker.t * Loop.t),
  Ticker.running_awaited T P None n s ->
  Ticker.running_awaited T P None (n + turns us) (Ticker.lives us s).
Proof.
  induction us as [|u us IH] using rev_ind; intros n s Hs.
  - cbn. rewrite Nat.add_0_r. exact Hs.
  - unfold Ticker.lives. rewrite fold_left_app. cbn [fold_left].
    rewrite turns_app, Nat.add_assoc.
    specialize (IH n s Hs). fold (Ticker.lives us s). destruct u as [d|]; cbn [Ticker.live].
    + replace (n + turns us + 1)%nat with (S (n + turns us)) by lia.
      apply ticker_turn_fires; [exact IH|].
      destruct IH as (_ & _ & _ & Hc & _). unfold Ticker.count_exceeded.
      rewrite Hc. reflexivity.
    + rewrite Nat.add_0_r. apply ticker_await_running, IH.
Qed.

(** As long as no waiter abandons its wait, a started ticker without a
    count never stops by itself: whatever tasks start awaiting it in
    between, after any number of turns of the loop it is not done, it has
    fired once in [start] and once in every turn, and exactly the timer
    set by the last tick is pending. *)
Theorem ticker_without_count_never_stops (P t0 : Z) (us : list use) :
  let s := Ticker.lives us (snd (Ticker.__init__ P None true (Loop.new t0))) in
  Ticker.is_done (fst s) = false /\
  Ticker.firings s = S (turns us) /\
  fst <$> next_timer (snd s) = Some (turns us).
Proof.
  intros s.
  assert (Hr : Ticker.running_awaited t0 P None (turns us) s).
  { apply (ticker_lives_unbounded t0 P us 0), running_is_awaited.
    apply (ticker_init_running P t0 None). reflexivity. }
  destruct Hr as (Hd & _ & _ & _ & _ & _ & _ & Hts & Hlog).
  split; [exact Hd|]. split.
  - unfold Ticker.firings. rewrite <- (length_map snd), Hlog. cbn.
    rewrite length_map, length_seq. reflexivity.
  - erewrite next_timer_last; [|exact Hts|apply called_not_due].
    cbn. rewrite length_map, length_seq. reflexivity.
Qed.

Lemma ticker_live_counted (T P : Z) (count : option Z) (u : use)
    (s : Ticker.t * Loop.t) :
  (exists n, Ticker.running_awaited T P count n s) \/ Ticker.settled s \/ Ticker.idle s ->
  (exists n, Ticker.running_awaited T P count n (Ticker.live u s)) \/
  Ticker.settled (Ticker.live u s) \/ Ticker.idle (Ticker.live u s).
Proof.
  intros [[n Hs]|[Hs|Hs]].
  - destruct u as [d|]; cbn [Ticker.live].
    + destruct (Ticker.count_exceeded (fst s)) eqn:He.
      * right. left. eapply ticker_turn_stops; eassumption.
      * left. exists (S n). apply ticker_turn_fires; assumption.
    + left. exists n. apply ticker_await_running, Hs.
  - right. left. apply ticker_live_settled, Hs.
  - right. right. apply ticker_live_idle, Hs.
Qed.

(** As long as no waiter abandons its wait, whatever the count, whatever
    tasks start awaiting the ticker and however many turns the loop has
    made, [iteration_count] reads the number of times the readiness pulse
    has fired. *)
Theorem iteration_count_counts_firings
    (P t0 : Z) (count : option Z) (us : list use) :
  let s := Ticker.lives us (snd (Ticker.__init__ P count true (Loop.new t0))) in
  Ticker.iteration_count (fst s) = Z.of_nat (Ticker.firings s).
Proof.
  intros s.
  assert (H : (exists n, Ticker.running_awaited t0 P count n s)
              \/ Ticker.settled s \/ Ticker.idle s).
  { subst s. induction us as [|u us IH] using rev_ind.
    - cbn [Ticker.lives fold_left].
      destruct (match count with Some c => 0 <=? c | None => true end) eqn:Ec.
      + left. exists 0%nat. apply running_is_awaited, ticker_init_running, Ec.
      + right. right. destruct count as [c|]; [|discriminate Ec].
        apply Z.leb_gt in Ec. rewrite ticker_init_negative by exact Ec.
        repeat split; reflexivity.
    - unfold Ticker.lives. rewrite fold_left_app. cbn [fold_left].
      apply ticker_live_counted, IH. }
  unfold Ticker.iteration_count, Ticker.firings.
  destruct H as [[n (_ & _ & _ & _ & Hit & _ & _ & _ & Hlog)]|[[_ Hit]|(_ & Hlog & Hit)]].
  - rewrite Hit, <- (length_map snd), Hlog. cbn. rewrite length_map, length_seq.
    reflexivity.
  - exact Hit.
  - rewrite Hit, Hlog. reflexivity.
Qed.

End AwaitedTimers.
